(** * BibTeX statistics analyzer ([get_stats.py]): a shallow embedding

    The development follows the class [BibtexAnalyzer]:

    - Python [str] values are lists of code points.  The model covers the
      code points below 256 (the range of [ascii]); on that range the
      character classes used by [str.strip], [str.lower] and by the
      [re] module ([\s], [\w], [\d], [re.IGNORECASE]) are the ones
      CPython uses for [str] patterns.
    - [re] patterns are terms of a small regular-expression syntax, run by
      a backtracking matcher with the priorities of CPython's engine
      (leftmost match, alternatives in order, greedy and lazy repeats).
    - [dict] and [Counter] objects are finite maps ([gmap]).
    - The line loop of [parse_bibtex_file] is a step function over an
      explicit state; subscripting [None] is the only operation of the
      loop that could raise, and it is modelled as an error result. *)

From Stdlib Require Import Ascii String List ZArith Lia Bool DecimalString Sorted.
From stdpp Require Import gmap strings list fin_maps.
Import ListNotations.

Set Warnings "-via-type-mismatch,-via-type-remapping".

(** ** Strings *)

Definition str : Type := list ascii.
Definition str_nil : str := @nil ascii.
Definition str_cons : ascii -> str -> str := @cons ascii.
Definition str_of_bytes (l : list Byte.byte) : string := string_of_list_byte l.
Definition bytes_of_str (s : string) : list Byte.byte := list_byte_of_string s.

Declare Scope str_scope.
Delimit Scope str_scope with str.
Bind Scope str_scope with str.
String Notation str str_of_bytes bytes_of_str
  (via string mapping [str_nil => EmptyString, str_cons => String]) : str_scope.
Open Scope str_scope.
Global Typeclasses Transparent str.

Definition chr (n : nat) : ascii := ascii_of_nat n.
Definition code (c : ascii) : nat := nat_of_ascii c.

Definition nl : ascii := chr 10.

Definition ch_eqb (a b : ascii) : bool := Ascii.eqb a b.
Arguments ch_eqb : simpl never.

(** *** Character classes (code points 0..255) *)

(** [str.isspace] / [\s]: TAB..CR, FS..US, SPACE, NEL, NBSP. *)
Definition is_space (c : ascii) : bool :=
  let n := code c in
  ((9 <=? n) && (n <=? 13)) || ((28 <=? n) && (n <=? 32))
  || (n =? 133) || (n =? 160).

(** [\d]: the decimal digits. *)
Definition is_digit (c : ascii) : bool :=
  let n := code c in (48 <=? n) && (n <=? 57).

(** [str.isalpha] on the Latin-1 range. *)
Definition is_alpha (c : ascii) : bool :=
  let n := code c in
  ((65 <=? n) && (n <=? 90)) || ((97 <=? n) && (n <=? 122))
  || (n =? 170) || (n =? 181) || (n =? 186)
  || ((192 <=? n) && (n <=? 214)) || ((216 <=? n) && (n <=? 246))
  || ((248 <=? n) && (n <=? 255)).

(** Superscript digits and vulgar fractions count as numeric. *)
Definition is_numeric (c : ascii) : bool :=
  let n := code c in
  is_digit c || (n =? 178) || (n =? 179) || (n =? 185)
  || ((188 <=? n) && (n <=? 190)).

(** [\w]: alphanumeric or underscore. *)
Definition is_word (c : ascii) : bool :=
  is_alpha c || is_numeric c || (code c =? 95).

(** [str.lower] on one code point.  On the range of the model it maps
    code points one to one; beyond that range it does not always (U+0130
    becomes two code points, the second a combining mark), which is why
    the statements on entry types and field names say what [lower] was
    applied to, and not which characters it returns. *)
Definition lower_char (c : ascii) : ascii :=
  let n := code c in
  if ((65 <=? n) && (n <=? 90))
     || ((192 <=? n) && (n <=? 214)) || ((216 <=? n) && (n <=? 222))
  then chr (n + 32) else c.

(** *** [str] methods used by the analyzer *)

Definition lower (s : str) : str := map lower_char s.

Fixpoint lstrip (s : str) : str :=
  match s with
  | c :: s' => if is_space c then lstrip s' else s
  | [] => []
  end.

Definition rstrip (s : str) : str := rev (lstrip (rev s)).

Definition strip (s : str) : str := rstrip (lstrip s).

(** [s.rstrip(',')] *)
Fixpoint lstrip_char (x : ascii) (s : str) : str :=
  match s with
  | c :: s' => if ch_eqb c x then lstrip_char x s' else s
  | [] => []
  end.

Definition rstrip_char (x : ascii) (s : str) : str :=
  rev (lstrip_char x (rev s)).

(** [s.startswith(x)] and [s.endswith(x)] for a one-character [x]. *)
Definition startswith (x : ascii) (s : str) : bool :=
  match s with
  | c :: _ => ch_eqb c x
  | [] => false
  end.

Definition endswith (x : ascii) (s : str) : bool := startswith x (rev s).

(** [x in s] for a one-character [x]. *)
Definition contains (x : ascii) (s : str) : bool := existsb (ch_eqb x) s.

(** [s.count(x)] for a one-character [x]. *)
Definition count (x : ascii) (s : str) : nat := length (List.filter (fun c => ch_eqb c x) s).

(** [s.replace(x, '')] for a one-character [x]. *)
Definition remove_char (x : ascii) (s : str) : str :=
  List.filter (fun c => negb (ch_eqb c x)) s.

(** [s.find(x)] for a one-character [x]: index of the first occurrence,
    or -1. *)
Fixpoint find_from (x : ascii) (s : str) (i : Z) : Z :=
  match s with
  | c :: s' => if ch_eqb c x then i else find_from x s' (i + 1)
  | [] => (-1)%Z
  end.

Definition find (x : ascii) (s : str) : Z := find_from x s 0.

(** [s[1:-1]] *)
Definition slice_1_m1 (s : str) : str := removelast (tl s).

(** [s.split(x)] for a one-character separator: never empty. *)
Fixpoint split_char (x : ascii) (s : str) : list str :=
  match s with
  | [] => [[]]
  | c :: s' =>
      match split_char x s' with
      | w :: ws => if ch_eqb c x then [] :: w :: ws else (c :: w) :: ws
      | [] => [[c]]
      end
  end.

(** [x.join(l)] for a one-character [x]. *)
Fixpoint join_char (x : ascii) (l : list str) : str :=
  match l with
  | [] => []
  | [w] => w
  | w :: ws => w ++ x :: join_char x ws
  end.

(** ** The [re] module *)

Module Re.

(** Repeats are applied to one-character items only, which is all the
    patterns of the analyzer need. *)
Inductive regex : Type :=
| Eps
| Chr (p : ascii -> bool)
| Seq (r1 r2 : regex)
| Alt (r1 r2 : regex)
| Star (p : ascii -> bool)
| StarLazy (p : ascii -> bool)
| Group (n : nat) (r : regex)
| Ahead (r : regex)
| Bol
| Eol.

(** Group number, captured text; the most recent capture is first. *)
Definition caps : Type := list (nat * str).

Fixpoint get_group (n : nat) (cs : caps) : option str :=
  match cs with
  | [] => None
  | (m, s) :: cs' => if Nat.eqb m n then Some s else get_group n cs'
  end.

Section Repeat.
Context {A : Type}.
Variable p : ascii -> bool.
Variable k : nat -> str -> caps -> option A.

(** [p*]: longest run first, then shorter ones. *)
Fixpoint greedy_rep (pos : nat) (rest : str) (cs : caps) : option A :=
  match rest with
  | c :: rest' =>
      if p c then
        match greedy_rep (S pos) rest' cs with
        | Some x => Some x
        | None => k pos rest cs
        end
      else k pos rest cs
  | [] => k pos rest cs
  end.

(** [p*?]: shortest run first, then longer ones. *)
Fixpoint lazy_rep (pos : nat) (rest : str) (cs : caps) : option A :=
  match k pos rest cs with
  | Some x => Some x
  | None =>
      match rest with
      | c :: rest' => if p c then lazy_rep (S pos) rest' cs else None
      | [] => None
      end
  end.
End Repeat.

(** Backtracking matcher in continuation-passing style: [pos] is the index
    of [rest] in the subject string, [k] is what remains to be matched;
    [None] makes the caller try its next alternative. *)
Fixpoint match_re (r : regex) (A : Type) (pos : nat) (rest : str) (cs : caps)
    (k : nat -> str -> caps -> option A) {struct r} : option A :=
  match r with
  | Eps => k pos rest cs
  | Chr p =>
      match rest with
      | c :: rest' => if p c then k (S pos) rest' cs else None
      | [] => None
      end
  | Seq r1 r2 =>
      match_re r1 A pos rest cs
        (fun pos' rest' cs' => match_re r2 A pos' rest' cs' k)
  | Alt r1 r2 =>
      match match_re r1 A pos rest cs k with
      | Some x => Some x
      | None => match_re r2 A pos rest cs k
      end
  | Star p => greedy_rep p k pos rest cs
  | StarLazy p => lazy_rep p k pos rest cs
  | Group n r =>
      match_re r A pos rest cs
        (fun pos' rest' cs' => k pos' rest' ((n, take (pos' - pos) rest) :: cs'))
  | Ahead r =>
      match match_re r caps pos rest cs (fun _ _ cs' => Some cs') with
      | Some cs' => k pos rest cs'
      | None => None
      end
  | Bol => if Nat.eqb pos 0 then k pos rest cs else None
  | Eol =>
      match rest with
      | [] => k pos rest cs
      | [c] => if ch_eqb c nl then k pos rest cs else None
      | _ => None
      end
  end.

Record rmatch : Type := RMatch {
  m_start : nat;
  m_end : nat;
  m_caps : caps
}.

(** [m.group(n)]; a group that took no part in the match reads as the
    empty string in [findall]. *)
Definition group (n : nat) (m : rmatch) : str :=
  default [] (get_group n (m_caps m)).

(** One attempt at position [pos].  With [must_advance] an empty match
    at the position is refused, so that the matcher backtracks. *)
Definition match_at (r : regex) (must_advance : bool) (pos : nat) (rest : str)
    : option rmatch :=
  match_re r rmatch pos rest []
    (fun pos' _ cs =>
       if must_advance && Nat.eqb pos' pos then None
       else Some (RMatch pos pos' cs)).

(** Scan for the leftmost position with a match; [must_advance] only
    applies to the first position tried. *)
Fixpoint search_from (r : regex) (must_advance : bool) (pos : nat) (rest : str)
    : option rmatch :=
  match match_at r must_advance pos rest with
  | Some m => Some m
  | None =>
      match rest with
      | [] => None
      | _ :: rest' => search_from r false (S pos) rest'
      end
  end.

(** [re.search(r, s)] *)
Definition search (r : regex) (s : str) : option rmatch :=
  search_from r false 0 s.

(** The successive non-overlapping matches that [findall], [sub] and
    [split] iterate over.  Each round either consumes a character or sets
    [must_advance], so [2 * len(s) + 3] rounds are never exhausted. *)
Fixpoint matches_loop (fuel : nat) (r : regex) (s : str) (pos : nat)
    (must_advance : bool) : list rmatch :=
  match fuel with
  | 0 => []
  | S fuel' =>
      match search_from r must_advance pos (drop pos s) with
      | None => []
      | Some m =>
          m :: matches_loop fuel' r s (m_end m) (Nat.eqb (m_end m) (m_start m))
      end
  end.

Definition matches (r : regex) (s : str) : list rmatch :=
  matches_loop (2 * length s + 3) r s 0 false.

(** [re.findall(r, s)] for a pattern with two groups. *)
Definition findall2 (r : regex) (s : str) : list (str * str) :=
  map (fun m => (group 1 m, group 2 m)) (matches r s).

(** [re.sub(r, repl, s)] for a replacement without group references. *)
Fixpoint sub_build (repl : str) (s : str) (i : nat) (ms : list rmatch) : str :=
  match ms with
  | [] => drop i s
  | m :: ms' =>
      take (m_start m - i) (drop i s) ++ repl ++ sub_build repl s (m_end m) ms'
  end.

Definition sub (r : regex) (repl : str) (s : str) : str :=
  sub_build repl s 0 (matches r s).

(** [re.split(r, s)] for a pattern without groups. *)
Fixpoint split_build (s : str) (last : nat) (ms : list rmatch) : list str :=
  match ms with
  | [] => [drop last s]
  | m :: ms' =>
      take (m_start m - last) (drop last s) :: split_build s (m_end m) ms'
  end.

Definition split (r : regex) (s : str) : list str :=
  split_build s 0 (matches r s).

(** *** Pattern syntax helpers *)

Definition any : ascii -> bool := fun _ => true.
Definition lit_c (x : ascii) : ascii -> bool := fun c => ch_eqb c x.
Definition not_c (x : ascii) : ascii -> bool := fun c => negb (ch_eqb c x).
(** A literal under [re.IGNORECASE]. *)
Definition lit_ci (x : ascii) : ascii -> bool :=
  fun c => ch_eqb (lower_char c) (lower_char x).

Definition Plus (p : ascii -> bool) : regex := Seq (Chr p) (Star p).

Fixpoint Lit (s : str) : regex :=
  match s with
  | [] => Eps
  | c :: s' => Seq (Chr (lit_c c)) (Lit s')
  end.

Fixpoint LitCI (s : str) : regex :=
  match s with
  | [] => Eps
  | c :: s' => Seq (Chr (lit_ci c)) (LitCI s')
  end.

Fixpoint Times (n : nat) (p : ascii -> bool) : regex :=
  match n with
  | 0 => Eps
  | S n' => Seq (Chr p) (Times n' p)
  end.

End Re.

(** ** The patterns of [get_stats.py] *)

Definition dquote : ascii := chr 34.

(** [@(\w+)\s*{] *)
Definition entry_start_re : Re.regex :=
  Re.Seq (Re.Chr (Re.lit_c "@"))
    (Re.Seq (Re.Group 1 (Re.Plus is_word))
       (Re.Seq (Re.Star is_space) (Re.Chr (Re.lit_c "{")))).

(** [{([^,]+)] *)
Definition key_re : Re.regex :=
  Re.Seq (Re.Chr (Re.lit_c "{")) (Re.Group 1 (Re.Plus (Re.not_c ","))).

(** The pattern of line 94,
    [(\w+)\s*=\s*({.*?}|".*?"|.*?)(?=\s*\w+\s*=|\s*}\s*$)], under
    [re.DOTALL | re.IGNORECASE]: the dot matches every character, and no
    item of the pattern is a letter.  First the alternatives of group 2,
    then those of the lookahead, then the whole. *)
Definition field_value_re : Re.regex :=
  Re.Alt (Re.Seq (Re.Chr (Re.lit_c "{"))
            (Re.Seq (Re.StarLazy Re.any) (Re.Chr (Re.lit_c "}"))))
    (Re.Alt (Re.Seq (Re.Chr (Re.lit_c dquote))
               (Re.Seq (Re.StarLazy Re.any) (Re.Chr (Re.lit_c dquote))))
       (Re.StarLazy Re.any)).

Definition field_end_re : Re.regex :=
  Re.Alt (Re.Seq (Re.Star is_space)
            (Re.Seq (Re.Plus is_word)
               (Re.Seq (Re.Star is_space) (Re.Chr (Re.lit_c "=")))))
    (Re.Seq (Re.Star is_space)
       (Re.Seq (Re.Chr (Re.lit_c "}")) (Re.Seq (Re.Star is_space) Re.Eol))).

Definition field_re : Re.regex :=
  Re.Seq (Re.Group 1 (Re.Plus is_word))
    (Re.Seq (Re.Star is_space)
       (Re.Seq (Re.Chr (Re.lit_c "="))
          (Re.Seq (Re.Star is_space)
             (Re.Seq (Re.Group 2 field_value_re) (Re.Ahead field_end_re))))).

(** [\sand\s] under [re.IGNORECASE] *)
Definition and_re : Re.regex :=
  Re.Seq (Re.Chr is_space) (Re.Seq (Re.LitCI "and") (Re.Chr is_space)).

(** [\s+] *)
Definition spaces_re : Re.regex := Re.Plus is_space.

(** [^proceedings of\s*] under [re.IGNORECASE] *)
Definition proceedings_re : Re.regex :=
  Re.Seq Re.Bol (Re.Seq (Re.LitCI "proceedings of") (Re.Star is_space)).

(** [^the\s+] under [re.IGNORECASE] *)
Definition the_re : Re.regex :=
  Re.Seq Re.Bol (Re.Seq (Re.LitCI "the") (Re.Plus is_space)).

(** [\d{4}] *)
Definition year_re : Re.regex := Re.Times 4 is_digit.

(** ** Entries *)

(** The dictionary built at lines 48-53. *)
Record Entry : Type := mkEntry {
  entry_type : str;
  entry_key : str;
  fields : gmap str str;
  raw : list str
}.

Definition set_fields (e : Entry) (f : gmap str str) : Entry :=
  mkEntry (entry_type e) (entry_key e) f (raw e).

Definition set_raw (e : Entry) (r : list str) : Entry :=
  mkEntry (entry_type e) (entry_key e) (fields e) r.

(** Truth value of a string. *)
Definition truthy (s : str) : bool :=
  match s with
  | [] => false
  | _ :: _ => true
  end.

(** ** [parse_entry_fields] *)

(** Lines 99-109: the clean-up of one matched value. *)
Definition clean_field_value (field_value : str) : str :=
  let field_value := strip field_value in
  let field_value :=
    if startswith "{" field_value && endswith "}" field_value
    then slice_1_m1 field_value
    else if startswith dquote field_value && endswith dquote field_value
    then slice_1_m1 field_value
    else field_value in
  let field_value := rstrip_char "," field_value in
  strip field_value.

(** Lines 84-90: what is left of the entry text once the [@type{key,]
    part is removed. *)
Definition entry_body (entry_text : str) : str :=
  let lines := split_char nl entry_text in
  if 1 <? length lines then join_char nl (tl lines)
  else
    let content := hd [] lines in
    drop (Z.to_nat (find "," content + 1)) content.

Definition store_field (fields : gmap str str) (m : str * str) : gmap str str :=
  let field_name := strip (lower (fst m)) in
  <[field_name := clean_field_value (snd m)]> fields.

Definition parse_entry_fields (entry_text : str) : gmap str str :=
  let content := entry_body entry_text in
  let matches := Re.findall2 field_re content in
  fold_left store_field matches ∅.

(** ** [parse_bibtex_file] *)

Inductive exn : Type :=
| TypeError.

Inductive result (A : Type) : Type :=
| Ok (a : A)
| Raise (e : exn).
Arguments Ok {A} a.
Arguments Raise {A} e.

(** The local variables of the line loop. *)
Record pstate : Type := mkState {
  entries : list Entry;
  current_entry : option Entry;
  entry_content : list str;
  in_entry : bool
}.

Definition init_state : pstate := mkState [] None [] false.

(** Line 36: blank lines and comment lines are skipped. *)
Definition skipped (line : str) : bool :=
  negb (truthy line) || startswith "%" line.

(** Line 57: the start line already closes the entry. *)
Definition closes_on_start (line : str) : bool :=
  contains "}" line && (count "{" line <=? count "}" line).

(** Lines 66-69: a later line closes the entry. *)
Definition closes_entry (line : str) : bool :=
  contains "}" line
  && (Z.of_nat (count "{" line) - Z.of_nat (count "}" line) <=? 0)%Z
  && endswith "}" (rstrip line).

(** Line 47 *)
Definition key_of_line (line : str) : str :=
  match Re.search key_re line with
  | Some key_match => Re.group 1 key_match
  | None => "unknown"
  end.

(** Lines 40-61, once the start pattern has matched. *)
Definition start_entry (st : pstate) (line : str) (m : Re.rmatch) : pstate :=
  let entry_type := lower (Re.group 1 m) in
  let entry_key := key_of_line line in
  let current_entry := mkEntry entry_type entry_key ∅ [] in
  let entry_content := [line] in
  if closes_on_start line then
    let current_entry := set_raw current_entry entry_content in
    mkState (entries st ++ [current_entry]) (Some current_entry)
      entry_content false
  else
    mkState (entries st) (Some current_entry) entry_content true.

(** Lines 63-75 *)
Definition continue_entry (st : pstate) (line : str) : result pstate :=
  let entry_content := entry_content st ++ [line] in
  if closes_entry line then
    match current_entry st with
    | None => Raise TypeError
    | Some cur =>
        let full_text := join_char nl entry_content in
        let parsed_fields := parse_entry_fields full_text in
        let cur := set_fields cur parsed_fields in
        Ok (mkState (entries st ++ [cur]) (Some cur) entry_content false)
    end
  else
    Ok (mkState (entries st) (current_entry st) entry_content (in_entry st)).

(** One round of the loop at line 32. *)
Definition step (st : pstate) (raw_line : str) : result pstate :=
  let line := strip raw_line in
  if skipped line then Ok st
  else if negb (in_entry st) && contains "@" line then
    match Re.search entry_start_re line with
    | Some m => Ok (start_entry st line m)
    | None => Ok st
    end
  else if in_entry st then continue_entry st line
  else Ok st.

Fixpoint run (st : pstate) (lines : list str) : result pstate :=
  match lines with
  | [] => Ok st
  | l :: ls =>
      match step st l with
      | Ok st' => run st' ls
      | Raise e => Raise e
      end
  end.

(** The lines are those returned by [readlines]. *)
Definition parse_bibtex_file (lines : list str) : result (list Entry) :=
  match run init_state lines with
  | Ok st => Ok (entries st)
  | Raise e => Raise e
  end.

(** [s.replace('{', '').replace('}', '')] *)
Definition remove_braces (s : str) : str :=
  remove_char "}" (remove_char "{" s).

(** ** [extract_authors] *)

Definition clean_author (cleaned_authors : list str) (author : str) : list str :=
  let author := strip author in
  let author := Re.sub spaces_re " " author in
  let author := remove_braces author in
  if truthy author then cleaned_authors ++ [author] else cleaned_authors.

Definition extract_authors (author_field : str) : list str :=
  if negb (truthy author_field) then []
  else
    let authors := Re.split and_re author_field in
    fold_left clean_author authors [].

(** ** [extract_venue_info] *)

(** [d.get(k, '')] *)
Definition get (d : gmap str str) (k : str) : str := default [] (d !! k).

(** [a or b] on strings *)
Definition or_else (a b : str) : str := if truthy a then a else b.

Definition clean_journal (journal : str) : str :=
  let journal := remove_braces journal in
  let journal := Re.sub proceedings_re "" journal in
  Re.sub the_re "" journal.

Definition clean_conference (conference : str) : str :=
  let conference := remove_braces conference in
  Re.sub proceedings_re "" conference.

Definition extract_venue_info (entry : Entry) : str * str :=
  let fields := fields entry in
  let journal := or_else (get fields "journal") (get fields "journaltitle") in
  let conference := or_else (get fields "booktitle") (get fields "conference") in
  let journal := if truthy journal then clean_journal journal else journal in
  let conference :=
    if truthy conference then clean_conference conference else conference in
  (strip journal, strip conference).

(** ** [calculate_statistics] *)

Record Stats : Type := mkStats {
  total_entries : nat;
  entry_types : gmap str nat;
  authors : gmap str nat;
  journals : gmap str nat;
  conferences : gmap str nat;
  years : gmap str nat
}.

(** [c[k] += 1] on a [Counter]: a missing label reads as 0. *)
Definition incr (k : str) (c : gmap str nat) : gmap str nat :=
  <[k := default 0 (c !! k) + 1]> c.

(** Lines 198-203: the label that an entry adds to the year table. *)
Definition year_label (year : str) : option str :=
  if truthy year then
    match Re.search year_re year with
    | Some year_match =>
        Some (take (Re.m_end year_match - Re.m_start year_match)
                (drop (Re.m_start year_match) year))
    | None => None
    end
  else None.

(** The body of the loop at line 179. *)
Definition count_entry (stats : Stats) (entry : Entry) : Stats :=
  let entry_types := incr (entry_type entry) (entry_types stats) in
  let author_field := get (fields entry) "author" in
  let authors :=
    if truthy author_field
    then fold_left (fun c author => incr author c)
           (extract_authors author_field) (authors stats)
    else authors stats in
  let '(journal, conference) := extract_venue_info entry in
  let journals :=
    if truthy journal then incr journal (journals stats) else journals stats in
  let conferences :=
    if truthy conference then incr conference (conferences stats)
    else conferences stats in
  let years :=
    match year_label (get (fields entry) "year") with
    | Some y => incr y (years stats)
    | None => years stats
    end in
  mkStats (total_entries stats) entry_types authors journals conferences years.

Definition calculate_statistics (entries : list Entry) : Stats :=
  fold_left count_entry entries (mkStats (length entries) ∅ ∅ ∅ ∅ ∅).

(** ** [analyze_files], over the lines of each file *)

Fixpoint parse_all (files : list (list str)) : result (list Entry) :=
  match files with
  | [] => Ok []
  | f :: fs =>
      match parse_bibtex_file f with
      | Raise e => Raise e
      | Ok es =>
          match parse_all fs with
          | Raise e => Raise e
          | Ok all => Ok (es ++ all)
          end
      end
  end.

Definition analyze_files (files : list (list str)) : result Stats :=
  match parse_all files with
  | Ok all_entries => Ok (calculate_statistics all_entries)
  | Raise e => Raise e
  end.

(** The sum of the counts of a table. *)
Definition table_sum (c : gmap str nat) : nat :=
  map_fold (fun _ n acc => n + acc) 0 c.

(** * The report *)

(** ** [format_markdown] *)

Module Report.

(** A [Counter] as the list of its items, in the order in which the labels
    were first counted (the order of a [dict]). *)
Definition counter : Type := list (str * nat).

(** The dictionary built at lines 170-177, with that order. *)
Record stats : Type := mkStats {
  total_entries : nat;
  entry_types : counter;
  authors : counter;
  journals : counter;
  conferences : counter;
  years : counter
}.

(** [c[k] += 1]: a known label keeps its place, a new one goes last. *)
Fixpoint incr (k : str) (c : counter) : counter :=
  match c with
  | [] => [(k, 1)]
  | (k', n) :: c' =>
      if bool_decide (k' = k) then (k', n + 1) :: c' else (k', n) :: incr k c'
  end.

(** The body of the loop at line 179. *)
Definition count_entry (s : stats) (entry : Entry) : stats :=
  let entry_types := incr (entry_type entry) (entry_types s) in
  let author_field := get (fields entry) "author" in
  let authors :=
    if truthy author_field
    then fold_left (fun c author => incr author c)
           (extract_authors author_field) (authors s)
    else authors s in
  let '(journal, conference) := extract_venue_info entry in
  let journals :=
    if truthy journal then incr journal (journals s) else journals s in
  let conferences :=
    if truthy conference then incr conference (conferences s)
    else conferences s in
  let years :=
    match year_label (get (fields entry) "year") with
    | Some y => incr y (years s)
    | None => years s
    end in
  mkStats (total_entries s) entry_types authors journals conferences years.

Definition calculate_statistics (entries : list Entry) : stats :=
  fold_left count_entry entries (mkStats (length entries) [] [] [] [] []).

(** [os.path.basename], POSIX flavour: what follows the last slash. *)
Fixpoint until_char (x : ascii) (s : str) : str :=
  match s with
  | [] => []
  | c :: s' => if ch_eqb c x then [] else c :: until_char x s'
  end.

Definition basename (p : str) : str := rev (until_char "/" (rev p)).

(** A number inside an f-string: its decimal digits. *)
Definition str_of_nat (n : nat) : str :=
  list_ascii_of_string (NilZero.string_of_uint (Nat.to_uint n)).

Definition backslash : ascii := chr 92.

(** [s.replace('|', '\\|')] *)
Definition escape_pipes (s : str) : str :=
  flat_map (fun c => if ch_eqb c "|" then [backslash; "|"%char] else [c]) s.

(** [sorted(items, key=lambda x: x[1], reverse=True)]: the sort is stable,
    items with the same count keep their order. *)
Fixpoint insert_desc (x : str * nat) (l : counter) : counter :=
  match l with
  | [] => [x]
  | y :: l' => if snd x <? snd y then y :: insert_desc x l' else x :: y :: l'
  end.

Definition sorted_desc (c : counter) : counter := fold_right insert_desc [] c.

(** [c.most_common(n)]: the [n] first items of that sort. *)
Definition most_common (n : nat) (c : counter) : counter := take n (sorted_desc c).

(** [enumerate(l, 1)] *)
Definition enumerate1 {A : Type} (l : list A) : list (nat * A) :=
  combine (seq 1 (length l)) l.

(** Line 218 *)
Definition file_line (filename : str) : str :=
  "- `" ++ basename filename ++ "`".

(** Line 230 *)
Definition type_line (item : str * nat) : str :=
  "- `" ++ fst item ++ "`: " ++ str_of_nat (snd item).

(** Lines 241, 252, 263 (with the pipes of the label escaped) and 272
    (label as it is). *)
Definition table_row (escape : bool) (row : nat * (str * nat)) : str :=
  let '(i, (label, count)) := row in
  "| " ++ str_of_nat i ++ " | "
  ++ (if escape then escape_pipes label else label)
  ++ " | " ++ str_of_nat count ++ " |".

(** Lines 227-231 *)
Definition types_section (c : counter) : list str :=
  match c with
  | [] => []
  | _ :: _ => ["### Publication Types"] ++ map type_line (sorted_desc c) ++ [""]
  end.

(** One of the four blocks of lines 234-273, which differ by their three
    heading lines and by the escaping of the label. *)
Definition top10_section (title head rule : str) (escape : bool) (c : counter)
    : list str :=
  match c with
  | [] => []
  | _ :: _ =>
      [title; head; rule]
      ++ map (table_row escape) (enumerate1 (most_common 10 c)) ++ [""]
  end.

Definition format_lines (s : stats) (filenames : list str) : list str :=
  ["# BibTeX Statistics Report"; ""; "## Files Analyzed"]
  ++ map file_line filenames
  ++ [""; "## Summary Statistics";
      "- **Total publications:** " ++ str_of_nat (total_entries s); ""]
  ++ types_section (entry_types s)
  ++ top10_section "### Top 10 Authors" "| Rank | Author | Count |"
       "|------|--------|-------|" true (authors s)
  ++ top10_section "### Top 10 Journals" "| Rank | Journal | Count |"
       "|------|---------|-------|" true (journals s)
  ++ top10_section "### Top 10 Conferences" "| Rank | Conference | Count |"
       "|------|------------|-------|" true (conferences s)
  ++ top10_section "### Publication Years (Top 10)" "| Rank | Year | Count |"
       "|------|------|-------|" false (years s).

Definition format_markdown (s : stats) (filenames : list str) : str :=
  join_char nl (format_lines s filenames).

(** The tables without their order. *)
Definition table_of (c : counter) : gmap str nat := list_to_map c.

End Report.

(** ** Vocabulary of the statements *)

(** Every stored count is positive. *)
Definition positive_counts (c : gmap str nat) : Prop :=
  forall label n, c !! label = Some n -> 1 <= n.

Definition all_positive (s : Stats) : Prop :=
  positive_counts (entry_types s) /\ positive_counts (authors s)
  /\ positive_counts (journals s) /\ positive_counts (conferences s)
  /\ positive_counts (years s).

(** An opening brace directly followed by a character other than a comma:
    the places where [key_re] can match. *)
Definition key_start (s : str) : bool :=
  match s with
  | c :: d :: _ => ch_eqb c "{" && negb (ch_eqb d ",")
  | _ => false
  end.

Fixpoint has_key_start (s : str) : bool :=
  match s with
  | [] => false
  | _ :: s' => key_start s || has_key_start s'
  end.

(** What follows the key: the end of the line or a comma. *)
Definition key_end (tail : str) : bool :=
  match tail with
  | [] => true
  | c :: _ => ch_eqb c ","
  end.

(** The test of lines 36-42 for a line that opens an entry (outside an
    entry). *)
Definition is_start_line (line : str) : bool :=
  negb (skipped line) && contains "@" line
  && match Re.search entry_start_re line with Some _ => true | None => false end.

(** Four decimal digits in a row at the front of [s]. *)
Definition four_digits_at (s : str) : bool :=
  let w := take 4 s in Nat.eqb (length w) 4 && forallb is_digit w.

(** Four decimal digits in a row somewhere in [s]. *)
Fixpoint has_four_digits (s : str) : bool :=
  match s with
  | [] => false
  | _ :: s' => four_digits_at s || has_four_digits s'
  end.

(** The maximal runs of decimal digits of [s], from left to right; [cur]
    holds the digits of the run being read, last digit first. *)
Fixpoint digit_runs_from (cur : str) (s : str) : list str :=
  match s with
  | [] => match cur with [] => [] | _ => [rev cur] end
  | c :: s' =>
      if is_digit c then digit_runs_from (c :: cur) s'
      else match cur with
           | [] => digit_runs_from [] s'
           | _ => rev cur :: digit_runs_from [] s'
           end
  end.

Definition digit_runs (s : str) : list str := digit_runs_from [] s.

(** The first run of exactly four decimal digits, as the specification
    words the year label: a run of five digits is not one. *)
Definition first_run_of_exactly_four (s : str) : option str :=
  List.find (fun r => Nat.eqb (length r) 4) (digit_runs s).

(** The text does not begin with a whitespace character. *)
Definition starts_with_space (s : str) : bool :=
  match s with
  | c :: _ => is_space c
  | [] => false
  end.

(** The raw venue values chosen at lines 139 and 142. *)
Definition journal_field (entry : Entry) : str :=
  or_else (get (fields entry) "journal") (get (fields entry) "journaltitle").

Definition conference_field (entry : Entry) : str :=
  or_else (get (fields entry) "booktitle") (get (fields entry) "conference").

(** A line that leaves an open entry open: it is skipped, or it fails the
    close test. *)
Definition keeps_open (raw_line : str) : Prop :=
  skipped (strip raw_line) = true \/ closes_entry (strip raw_line) = false.

(** The lines that an open entry accumulates: trimmed, without the
    skipped ones. *)
Definition accumulated (raw_lines : list str) : list str :=
  List.filter (fun l => negb (skipped l)) (map strip raw_lines).

(** While an entry is open there is a current entry. *)
Definition state_ok (st : pstate) : Prop :=
  in_entry st = true -> current_entry st <> None.

(** Whatever the matcher hands to its continuation lies further right
    in the subject, and what is left is what was not consumed. *)
Definition advances {A} (pos : nat) (rest : str)
    (k : nat -> str -> Re.caps -> option A) (x : A) : Prop :=
  exists pos' rest' cs',
    k pos' rest' cs' = Some x /\ pos <= pos'
    /\ pos' + length rest' = pos + length rest.

(** Rounds still possible from position [pos]. *)
Definition rounds_left (s : str) (pos : nat) (ma : bool) : nat :=
  2 * (length s - pos) + (if ma then 0 else 1).

(** Patterns without capture groups. *)
Fixpoint group_free (r : Re.regex) : bool :=
  match r with
  | Re.Seq r1 r2 | Re.Alt r1 r2 => group_free r1 && group_free r2
  | Re.Group _ _ => false
  | Re.Ahead r => group_free r
  | _ => true
  end.

(** Two states that differ by entries found earlier, and by leftovers of
    an entry that is closed. *)
Definition same_progress (earlier : list Entry) (a b : pstate) : Prop :=
  entries a = earlier ++ entries b
  /\ in_entry a = in_entry b
  /\ (in_entry b = true ->
      current_entry a = current_entry b /\ entry_content a = entry_content b).

(** The same for two results of the loop. *)
Definition same_outcome (earlier : list Entry) (ra rb : result pstate) : Prop :=
  match ra, rb with
  | Ok a, Ok b => same_progress earlier a b
  | Raise _, Raise _ => True
  | _, _ => False
  end.

(** The document stops while an entry is still open. *)
Definition ends_inside_entry (lines : list str) : bool :=
  match run init_state lines with
  | Ok st => in_entry st
  | Raise _ => false
  end.

(** A type is what [lower] makes of a non-empty run of word characters,
    and is not empty; a key is non-empty and has no comma. *)
Definition entry_ok (e : Entry) : Prop :=
  (exists t, t <> [] /\ forallb is_word t = true /\ entry_type e = lower t)
  /\ entry_type e <> []
  /\ entry_key e <> [] /\ contains "," (entry_key e) = false.

Definition state_entries_ok (st : pstate) : Prop :=
  Forall entry_ok (entries st)
  /\ (in_entry st = true ->
      exists cur, current_entry st = Some cur /\ entry_ok cur).

(** A field name is what [lower] and then [strip] make of a non-empty run
    of word characters, and is not empty; a field value has no whitespace
    at either end. *)
Definition field_ok (name value : str) : Prop :=
  (exists n, n <> [] /\ forallb is_word n = true /\ name = strip (lower n))
  /\ name <> []
  /\ strip value = value.

(** A cleaned author name: non-empty, no brace, and no whitespace other
    than the plain space. *)
Definition author_ok (a : str) : Prop :=
  a <> [] /\ contains "{" a = false /\ contains "}" a = false
  /\ forall c, In c a -> is_space c = true -> c = " "%char.

(** A separator as [and_re] matches it: one whitespace character, the
    word "and" in any letter case, one whitespace character. *)
Definition is_and_sep (sep : str) : bool :=
  match sep with
  | [w1; a; n; d; w2] =>
      is_space w1 && ch_eqb (lower_char a) "a" && ch_eqb (lower_char n) "n"
      && ch_eqb (lower_char d) "d" && is_space w2
  | _ => false
  end.

Definition no_space (s : str) : bool := forallb (fun c => negb (is_space c)) s.

(** The author field made of a first name followed by separators and
    further names. *)
Fixpoint author_text (first : str) (more : list (str * str)) : str :=
  match more with
  | [] => first
  | (sep, name) :: more' => first ++ sep ++ author_text name more'
  end.

(** A venue name as stored: trimmed and without braces. *)
Definition venue_ok (v : str) : Prop :=
  strip v = v /\ contains "{" v = false /\ contains "}" v = false.

(** [c[k]] read from a [Counter]: a missing label reads as 0. *)
Definition count_of (c : gmap str nat) (k : str) : nat := default 0 (c !! k).

(** Number of times [k] stands in a list of labels. *)
Definition occurrences (k : str) (labels : list str) : nat :=
  length (List.filter (fun x => bool_decide (x = k)) labels).

(** [c[k] += 1] for each label of a list, in order. *)
Definition incr_all (labels : list str) (c : gmap str nat) : gmap str nat :=
  fold_left (fun c k => incr k c) labels c.

(** The labels that one entry adds to each table (lines 181-203). *)
Definition type_labels (e : Entry) : list str := [entry_type e].

Definition author_labels (e : Entry) : list str :=
  extract_authors (get (fields e) "author").

Definition journal_labels (e : Entry) : list str :=
  let journal := fst (extract_venue_info e) in
  if truthy journal then [journal] else [].

Definition conference_labels (e : Entry) : list str :=
  let conference := snd (extract_venue_info e) in
  if truthy conference then [conference] else [].

Definition year_labels (e : Entry) : list str :=
  match year_label (get (fields e) "year") with
  | Some y => [y]
  | None => []
  end.

(** The entries of one file. *)
Definition entries_of (lines : list str) : list Entry :=
  match parse_bibtex_file lines with
  | Ok es => es
  | Raise _ => []
  end.

(** The writer's inverse of [escape_pipes]: a backslash before a pipe is
    dropped. *)
Fixpoint unescape_pipes (s : str) : str :=
  match s with
  | [] => []
  | c :: s' =>
      match s' with
      | d :: s'' =>
          if ch_eqb c Report.backslash && ch_eqb d "|"
          then "|"%char :: unescape_pipes s''
          else c :: unescape_pipes s'
      | [] => [c]
      end
  end.

(** A pipe that no backslash precedes. *)
Fixpoint has_bare_pipe (prev_backslash : bool) (s : str) : bool :=
  match s with
  | [] => false
  | c :: s' =>
      (ch_eqb c "|" && negb prev_backslash)
      || has_bare_pipe (ch_eqb c Report.backslash) s'
  end.

(** The statistics of [Report] without the order of the tables. *)
Definition forget_order (s : Report.stats) : Stats :=
  mkStats (Report.total_entries s)
    (Report.table_of (Report.entry_types s))
    (Report.table_of (Report.authors s))
    (Report.table_of (Report.journals s))
    (Report.table_of (Report.conferences s))
    (Report.table_of (Report.years s)).

(** Each label stands once in each table. *)
Definition labels_once (s : Report.stats) : Prop :=
  NoDup (map fst (Report.entry_types s)) /\ NoDup (map fst (Report.authors s))
  /\ NoDup (map fst (Report.journals s)) /\ NoDup (map fst (Report.conferences s))
  /\ NoDup (map fst (Report.years s)).

(** Counts from the largest to the smallest. *)
Definition descending (c : Report.counter) : Prop :=
  StronglySorted (fun x y => snd y <= snd x) c.

(** The items with a given count, in their order. *)
Definition with_count (n : nat) (c : Report.counter) : Report.counter :=
  List.filter (fun x => Nat.eqb (snd x) n) c.

(** No label of the table contains a line break. *)
Definition one_line_labels (c : Report.counter) : Prop :=
  Forall (fun item => contains nl (fst item) = false) c.

Definition one_line_stats (s : Report.stats) : Prop :=
  one_line_labels (Report.entry_types s) /\ one_line_labels (Report.authors s)
  /\ one_line_labels (Report.journals s)
  /\ one_line_labels (Report.conferences s)
  /\ one_line_labels (Report.years s).

(** The lines of a text: what stands between its line breaks. *)
Definition text_lines (text : str) : list str := split_char nl text.

(** The entry that a start line [l] of the document makes when it also
    closes it: the type and the key read from the trimmed line, no field,
    and the trimmed line as the only raw text. *)
Definition closed_on_start_line (l : str) (e : Entry) : Prop :=
  is_start_line (strip l) = true /\ closes_on_start (strip l) = true
  /\ exists m, Re.search entry_start_re (strip l) = Some m
       /\ e = mkEntry (lower (Re.group 1 m)) (key_of_line (strip l)) ∅ [strip l].

(** An entry closed on its start line, one of the lines of the document
    (no field, that line as raw text), or an entry without raw text. *)
Definition raw_or_fields (lines : list str) (e : Entry) : Prop :=
  (exists l, In l lines /\ closed_on_start_line l e) \/ raw e = [].

Definition raw_or_fields_state (lines : list str) (st : pstate) : Prop :=
  Forall (raw_or_fields lines) (entries st)
  /\ (in_entry st = true ->
      exists cur, current_entry st = Some cur /\ raw cur = []).

(** * Properties *)

(** ** Counters *)

Section Counters.
Implicit Types (c : gmap str nat) (k : str).

Lemma table_sum_empty : table_sum ∅ = 0.
Proof. unfold table_sum. apply map_fold_empty. Qed.

Lemma table_sum_insert_fresh c k n :
  c !! k = None -> table_sum (<[k := n]> c) = n + table_sum c.
Proof.
  intros Hk. unfold table_sum.
  rewrite map_fold_insert_L; [reflexivity | intros; lia | exact Hk].
Qed.

Lemma table_sum_delete c k n :
  c !! k = Some n -> table_sum c = n + table_sum (delete k c).
Proof.
  intros Hk. unfold table_sum.
  rewrite (map_fold_delete_L _ _ k n c); [reflexivity | intros; lia | exact Hk].
Qed.

(** One increment adds one to the total of the table. *)
Lemma table_sum_incr c k : table_sum (incr k c) = S (table_sum c).
Proof.
  unfold incr. destruct (c !! k) as [n|] eqn:Hk; simpl.
  - rewrite (table_sum_delete c k n Hk).
    rewrite <- insert_delete_eq.
    rewrite table_sum_insert_fresh by apply lookup_delete_eq. lia.
  - rewrite table_sum_insert_fresh by exact Hk. lia.
Qed.

Lemma positive_counts_empty : positive_counts ∅.
Proof. intros label n H. rewrite lookup_empty in H. discriminate. Qed.

Lemma positive_counts_incr c k : positive_counts c -> positive_counts (incr k c).
Proof.
  intros Hc label n. unfold incr.
  destruct (decide (k = label)) as [->|Hne].
  - rewrite lookup_insert_eq. intros [= <-]. lia.
  - rewrite lookup_insert_ne by exact Hne. apply Hc.
Qed.

Lemma positive_counts_incr_all (l : list str) c :
  positive_counts c ->
  positive_counts (fold_left (fun c author => incr author c) l c).
Proof.
  revert c. induction l as [|a l IH]; intros c Hc; simpl; [exact Hc|].
  apply IH, positive_counts_incr, Hc.
Qed.
End Counters.

(** ** The fold of [calculate_statistics] *)

Lemma count_entry_total s e : total_entries (count_entry s e) = total_entries s.
Proof. unfold count_entry. destruct (extract_venue_info e). reflexivity. Qed.

Lemma count_entry_types s e :
  entry_types (count_entry s e) = incr (entry_type e) (entry_types s).
Proof. unfold count_entry. destruct (extract_venue_info e). reflexivity. Qed.

Lemma count_entry_years s e :
  years (count_entry s e) =
  match year_label (get (fields e) "year") with
  | Some y => incr y (years s)
  | None => years s
  end.
Proof. unfold count_entry. destruct (extract_venue_info e). reflexivity. Qed.

Lemma count_entry_positive s e : all_positive s -> all_positive (count_entry s e).
Proof.
  intros (Ht & Ha & Hj & Hc & Hy). unfold count_entry, all_positive.
  destruct (extract_venue_info e) as [journal conference]. simpl.
  repeat split.
  - apply positive_counts_incr, Ht.
  - destruct (truthy _); [apply positive_counts_incr_all|]; exact Ha.
  - destruct (truthy journal); [apply positive_counts_incr|]; exact Hj.
  - destruct (truthy conference); [apply positive_counts_incr|]; exact Hc.
  - destruct (year_label _); [apply positive_counts_incr|]; exact Hy.
Qed.

Lemma fold_count_total l s :
  total_entries (fold_left count_entry l s) = total_entries s.
Proof.
  revert s. induction l as [|e l IH]; intros s; simpl; [reflexivity|].
  rewrite IH. apply count_entry_total.
Qed.

Lemma fold_count_types_sum l s :
  table_sum (entry_types (fold_left count_entry l s))
  = length l + table_sum (entry_types s).
Proof.
  revert s. induction l as [|e l IH]; intros s; simpl; [reflexivity|].
  rewrite IH, count_entry_types, table_sum_incr. lia.
Qed.

Lemma fold_count_positive l s :
  all_positive s -> all_positive (fold_left count_entry l s).
Proof.
  revert s. induction l as [|e l IH]; intros s Hs; simpl; [exact Hs|].
  apply IH, count_entry_positive, Hs.
Qed.

(** C7: the entry count of the statistics equals the sum of the counts
    of the entry-type table, for every list of entries. *)
Theorem C7_total_entries_is_sum_of_entry_types (es : list Entry) :
  total_entries (calculate_statistics es)
  = table_sum (entry_types (calculate_statistics es)).
Proof.
  unfold calculate_statistics.
  rewrite fold_count_total, fold_count_types_sum. simpl.
  rewrite table_sum_empty. lia.
Qed.

(** C9: in the statistics built from any list of entries, every label
    stored in one of the five tables (entry types, authors, journals,
    conferences, years) has a count of at least 1. *)
Theorem C9_stored_counts_are_positive (es : list Entry) (label : str) (n : nat) :
  let s := calculate_statistics es in
  (entry_types s !! label = Some n -> 1 <= n)
  /\ (authors s !! label = Some n -> 1 <= n)
  /\ (journals s !! label = Some n -> 1 <= n)
  /\ (conferences s !! label = Some n -> 1 <= n)
  /\ (years s !! label = Some n -> 1 <= n).
Proof.
  intros s.
  assert (Hs : all_positive s).
  { apply fold_count_positive. repeat split; apply positive_counts_empty. }
  destruct Hs as (Ht & Ha & Hj & Hc & Hy).
  repeat split; intros H; eauto.
Qed.

(** ** String helpers *)

(** [split] always returns at least one piece, so [lines[0]] at line 88
    is defined. *)
Lemma split_char_nonempty x s : split_char x s <> [].
Proof.
  destruct s as [|c s]; simpl; [discriminate|].
  destruct (split_char x s); [discriminate|].
  destruct (ch_eqb c x); discriminate.
Qed.

Lemma ch_eqb_sym a b : ch_eqb a b = ch_eqb b a.
Proof. apply Ascii.eqb_sym. Qed.

Lemma ch_eqb_refl a : ch_eqb a a = true.
Proof. apply Ascii.eqb_refl. Qed.

Lemma ch_eqb_eq a b : ch_eqb a b = true <-> a = b.
Proof. apply Ascii.eqb_eq. Qed.

Lemma rstrip_char_id x s : endswith x s = false -> rstrip_char x s = s.
Proof.
  unfold endswith, rstrip_char, startswith. intros H.
  destruct (rev s) as [|c r] eqn:Hr.
  - simpl. apply (f_equal (@rev ascii)) in Hr.
    rewrite rev_involutive in Hr. simpl in Hr. congruence.
  - simpl. rewrite H. rewrite <- Hr. apply rev_involutive.
Qed.

(** ** Field values *)

(** A value that is already trimmed, has no trailing comma and fails both
    wrapping tests of lines 102 and 104 is returned unchanged. *)
Lemma clean_field_value_unwrapped (s : str) :
  strip s = s ->
  endswith "," s = false ->
  startswith "{" s && endswith "}" s = false ->
  startswith dquote s && endswith dquote s = false ->
  clean_field_value s = s.
Proof.
  intros Hstrip Hcomma Hbrace Hquote. unfold clean_field_value.
  rewrite Hstrip, Hbrace, Hquote.
  rewrite (rstrip_char_id _ _ Hcomma). exact Hstrip.
Qed.

Example clean_field_value_unwrapped_example :
  clean_field_value "Journal of Bar, vol. {2}" = "Journal of Bar, vol. {2}".
Proof. apply clean_field_value_unwrapped; reflexivity. Qed.

(** A second application of the clean-up is not a no-op in general: it
    removes one more layer of wrapping. *)
Example clean_field_value_layers :
  clean_field_value "{{Foo}}" = "{Foo}" /\ clean_field_value "{Foo}" = "Foo".
Proof. split; reflexivity. Qed.

(** C8: the value made of one double quote is trimmed, has no trailing
    comma and, one character long, is not wrapped in a pair of quotes; the
    clean-up does not return it unchanged but empties it, because the test
    of line 104 holds when the opening and the closing quote are the same
    character.  The brace branch of line 102 cannot do this: a lone brace
    is returned unchanged.  The value reaches the clean-up from a file: the
    entry whose three lines are [@a{k,], then [note =] followed by one
    double quote, then [}], is stored with an empty note. *)
Theorem C8_lone_quote_is_emptied :
  strip [dquote] = [dquote]
  /\ endswith "," [dquote] = false
  /\ length [dquote] = 1
  /\ clean_field_value [dquote] = []
  /\ clean_field_value "{" = "{"
  /\ clean_field_value "}" = "}"
  /\ parse_bibtex_file ["@a{k,"; "note = " ++ [dquote]; "}"]
     = Ok [mkEntry "a" "k" {["note" := []]} []].
Proof. repeat split; vm_compute; reflexivity. Qed.

(** ** The matcher *)

Module ReFacts.
Import Re.

Lemma search_from_hit r pos rest m :
  match_at r false pos rest = Some m -> search_from r false pos rest = Some m.
Proof. intros H. destruct rest; simpl; rewrite H; reflexivity. Qed.

Lemma search_from_miss r pos c rest :
  match_at r false pos (c :: rest) = None ->
  search_from r false pos (c :: rest) = search_from r false (S pos) rest.
Proof. intros H. simpl. rewrite H. reflexivity. Qed.

Lemma search_from_nil_miss r pos :
  match_at r false pos [] = None -> search_from r false pos [] = None.
Proof. intros H. simpl. rewrite H. reflexivity. Qed.

(** A greedy repeat followed by something that accepts the longest run
    takes the longest run. *)
Lemma greedy_rep_longest {A} (p : ascii -> bool) (k : nat -> str -> caps -> option A)
    (run tail : str) pos cs x :
  forallb p run = true ->
  match tail with [] => true | c :: _ => negb (p c) end = true ->
  k (pos + length run) tail cs = Some x ->
  greedy_rep p k pos (run ++ tail) cs = Some x.
Proof.
  revert pos. induction run as [|a run IH]; intros pos Hrun Htail Hk; simpl in *.
  - rewrite Nat.add_0_r in Hk.
    destruct tail as [|c t]; simpl; [exact Hk|].
    apply negb_true_iff in Htail. rewrite Htail. exact Hk.
  - apply andb_true_iff in Hrun as [Ha Hrun]. rewrite Ha.
    rewrite (IH (S pos)); [reflexivity | exact Hrun | exact Htail |].
    rewrite <- Hk. f_equal. lia.
Qed.

(** A literal under [IGNORECASE] consumes any text that lowers to the
    same string. *)
Lemma match_re_LitCI {A} (x p rest : str) pos cs (k : nat -> str -> caps -> option A) :
  lower p = lower x ->
  match_re (LitCI x) A pos (p ++ rest) cs k = k (pos + length p) rest cs.
Proof.
  revert p pos. induction x as [|c x IH]; intros p pos Hp.
  - destruct p; [|discriminate]. simpl. f_equal. lia.
  - destruct p as [|d p]; [discriminate|]. simpl in Hp.
    injection Hp as Hd Hp. simpl. unfold lit_ci at 1. rewrite Hd.
    rewrite ch_eqb_refl.
    rewrite (IH p (S pos) Hp). f_equal. lia.
Qed.

(** A pattern anchored with [^] never matches past the first position. *)
Lemma match_at_Bol_later r ma pos rest :
  match_at (Seq Bol r) ma (S pos) rest = None.
Proof. reflexivity. Qed.

Lemma search_from_Bol_later r pos rest :
  search_from (Seq Bol r) false (S pos) rest = None.
Proof.
  revert pos. induction rest as [|c rest IH]; intros pos; simpl.
  - reflexivity.
  - apply IH.
Qed.

Lemma search_from_Bol_later_adv r pos rest :
  search_from (Seq Bol r) true (S pos) rest = None.
Proof.
  destruct rest as [|c rest]; simpl; [reflexivity|].
  apply search_from_Bol_later.
Qed.

(** The matches of an anchored pattern: the one at position 0, if any. *)
Lemma matches_Bol_hit r s e cs :
  match_at (Seq Bol r) false 0 s = Some (RMatch 0 (S e) cs) ->
  matches (Seq Bol r) s = [RMatch 0 (S e) cs].
Proof.
  intros H. unfold matches.
  replace (2 * length s + 3) with (S (S (2 * length s + 1))) by lia.
  cbn [matches_loop]. rewrite drop_0, (search_from_hit _ _ _ _ H).
  cbn [m_end m_start].
  replace (Nat.eqb (S e) 0) with false by reflexivity.
  rewrite search_from_Bol_later. reflexivity.
Qed.

Lemma matches_Bol_miss r s :
  match_at (Seq Bol r) false 0 s = None -> matches (Seq Bol r) s = [].
Proof.
  intros H. unfold matches.
  replace (2 * length s + 3) with (S (2 * length s + 2)) by lia.
  cbn [matches_loop]. rewrite drop_0.
  destruct s as [|c s].
  - rewrite (search_from_nil_miss _ _ H). reflexivity.
  - rewrite (search_from_miss _ _ _ _ H), search_from_Bol_later. reflexivity.
Qed.

End ReFacts.

(** ** The citation key *)

Section KeyFacts.
Import Re ReFacts.

Lemma match_at_key_miss pos rest :
  key_start rest = false -> match_at key_re false pos rest = None.
Proof.
  intros H. destruct rest as [|c [|d rest]]; simpl.
  - reflexivity.
  - unfold match_at. simpl. destruct (lit_c "{" c); reflexivity.
  - unfold match_at. simpl. simpl in H. unfold lit_c, not_c.
    destruct (ch_eqb c "{"); [|reflexivity]. simpl in H.
    rewrite H. reflexivity.
Qed.

Lemma match_at_key_hit pos k tail :
  k <> [] -> forallb (not_c ",") k = true -> key_end tail = true ->
  match_at key_re false pos ("{"%char :: k ++ tail)
  = Some (RMatch pos (S pos + length k) [(1, k)]).
Proof.
  intros Hk Hnc Hend. destruct k as [|c k]; [congruence|].
  simpl in Hnc. apply andb_true_iff in Hnc as [Hc Hnc].
  unfold match_at. simpl. rewrite Hc.
  erewrite greedy_rep_longest; [reflexivity | exact Hnc | |].
  - destruct tail as [|d t]; [reflexivity|]. simpl in Hend.
    unfold not_c. rewrite Hend. reflexivity.
  - simpl. f_equal. f_equal; [lia|].
    replace (S (pos + length k) - pos) with (S (length k)) by lia.
    rewrite firstn_cons, take_app_length. reflexivity.
Qed.

Lemma key_start_app_brace c pre x :
  key_start ((c :: pre) ++ "{"%char :: x) = key_start ((c :: pre) ++ ["{"%char]).
Proof. destruct pre; reflexivity. Qed.

Lemma search_key_skip pre pos x :
  has_key_start (pre ++ ["{"%char]) = false ->
  search_from key_re false pos (pre ++ "{"%char :: x)
  = search_from key_re false (pos + length pre) ("{"%char :: x).
Proof.
  revert pos. induction pre as [|c pre IH]; intros pos H.
  - simpl. rewrite Nat.add_0_r. reflexivity.
  - change (has_key_start ((c :: pre) ++ ["{"%char]))
      with (key_start ((c :: pre) ++ ["{"%char]) || has_key_start (pre ++ ["{"%char])) in H.
    apply orb_false_iff in H as [H1 H2].
    change ((c :: pre) ++ "{"%char :: x) with (c :: (pre ++ "{"%char :: x)).
    rewrite search_from_miss.
    + rewrite (IH (S pos) H2). f_equal. simpl. lia.
    + apply match_at_key_miss.
      change (c :: (pre ++ "{"%char :: x)) with ((c :: pre) ++ "{"%char :: x).
      rewrite key_start_app_brace. exact H1.
Qed.

Lemma search_key_none line pos :
  has_key_start line = false -> search_from key_re false pos line = None.
Proof.
  revert pos. induction line as [|c line IH]; intros pos H.
  - reflexivity.
  - change (has_key_start (c :: line))
      with (key_start (c :: line) || has_key_start line) in H.
    apply orb_false_iff in H as [H1 H2].
    rewrite search_from_miss by (apply match_at_key_miss; exact H1).
    apply IH, H2.
Qed.

(** The key is the run of non-comma characters after the first opening
    brace that has one. *)
Lemma key_of_line_found pre k tail :
  has_key_start (pre ++ ["{"%char]) = false ->
  k <> [] -> forallb (not_c ",") k = true -> key_end tail = true ->
  key_of_line (pre ++ "{"%char :: k ++ tail) = k.
Proof.
  intros Hpre Hk Hnc Hend. unfold key_of_line, search.
  rewrite (search_key_skip _ _ _ Hpre).
  rewrite (search_from_hit _ _ _ _ (match_at_key_hit _ k tail Hk Hnc Hend)).
  reflexivity.
Qed.

Lemma key_of_line_unknown line :
  has_key_start line = false -> key_of_line line = "unknown".
Proof.
  intros H. unfold key_of_line, search. rewrite (search_key_none _ _ H).
  reflexivity.
Qed.

Lemma no_brace_no_key_start pre :
  contains "{" pre = false -> has_key_start (pre ++ ["{"%char]) = false.
Proof.
  induction pre as [|c pre IH]; intros H; [reflexivity|].
  simpl in H. apply orb_false_iff in H as [Hc Hpre].
  change (has_key_start ((c :: pre) ++ ["{"%char]))
    with (key_start ((c :: pre) ++ ["{"%char]) || has_key_start (pre ++ ["{"%char])).
  rewrite (IH Hpre), orb_false_r.
  rewrite ch_eqb_sym in Hc.
  destruct pre; simpl; rewrite Hc; reflexivity.
Qed.
End KeyFacts.

(** ** Trimming *)

Lemma lstrip_app_nonspace a c b :
  is_space c = false -> lstrip (a ++ c :: b) = lstrip a ++ c :: b.
Proof.
  intros Hc. induction a as [|x a IH]; simpl.
  - rewrite Hc. reflexivity.
  - destruct (is_space x); [exact IH | reflexivity].
Qed.

Lemma rstrip_app_nonspace a c b :
  is_space c = false -> rstrip (a ++ c :: b) = a ++ c :: rstrip b.
Proof.
  intros Hc. unfold rstrip.
  rewrite rev_app_distr. simpl. rewrite <- app_assoc. simpl.
  rewrite (lstrip_app_nonspace _ _ _ Hc).
  rewrite rev_app_distr. simpl. rewrite rev_involutive, <- app_assoc.
  reflexivity.
Qed.

Lemma strip_between a c mid d b :
  is_space c = false -> is_space d = false ->
  strip (a ++ c :: mid ++ d :: b) = lstrip a ++ c :: mid ++ d :: rstrip b.
Proof.
  intros Hc Hd. unfold strip. rewrite (lstrip_app_nonspace _ _ _ Hc).
  replace (lstrip a ++ c :: mid ++ d :: b)
    with ((lstrip a ++ c :: mid) ++ d :: b) by (rewrite <- app_assoc; reflexivity).
  rewrite (rstrip_app_nonspace _ _ _ Hd), <- app_assoc. reflexivity.
Qed.

Lemma contains_lstrip x s : contains x s = false -> contains x (lstrip s) = false.
Proof.
  induction s as [|c s IH]; intros H; [reflexivity|].
  simpl. destruct (is_space c); [|exact H].
  simpl in H. apply orb_false_iff in H as [_ H]. exact (IH H).
Qed.

(** ** Entry start lines *)

Lemma step_start st raw_line :
  in_entry st = false -> is_start_line (strip raw_line) = true ->
  exists m, Re.search entry_start_re (strip raw_line) = Some m
    /\ step st raw_line = Ok (start_entry st (strip raw_line) m).
Proof.
  intros Hin H. unfold is_start_line in H.
  apply andb_true_iff in H as [H Hm]. apply andb_true_iff in H as [Hs Hat].
  apply negb_true_iff in Hs.
  destruct (Re.search entry_start_re (strip raw_line)) as [m|] eqn:E; [|discriminate].
  exists m. split; [reflexivity|].
  unfold step. rewrite Hs, Hin, Hat, E. reflexivity.
Qed.

Lemma start_entry_current st line m :
  exists cur, current_entry (start_entry st line m) = Some cur
    /\ entry_type cur = lower (Re.group 1 m)
    /\ entry_key cur = key_of_line line
    /\ fields cur = ∅.
Proof.
  unfold start_entry. destruct (closes_on_start line); eexists; simpl; eauto.
Qed.

(** C5 (as amended): on every entry-start line the key of the new entry
    is the run of non-comma characters after the first opening brace of
    the line that is directly followed by a character other than a comma;
    the run ends at the next comma or at the end of the line.  The key is
    "unknown" only when no opening brace of the line is directly followed
    by a character other than a comma. *)
Theorem C5_citation_key (st : pstate) (raw_line : str) :
  in_entry st = false ->
  is_start_line (strip raw_line) = true ->
  exists st' cur,
    step st raw_line = Ok st' /\ current_entry st' = Some cur
    /\ (forall pre k tail,
          strip raw_line = pre ++ "{" ++ k ++ tail ->
          has_key_start (pre ++ "{") = false ->
          k <> [] -> contains "," k = false -> key_end tail = true ->
          entry_key cur = k)
    /\ (has_key_start (strip raw_line) = false -> entry_key cur = "unknown").
Proof.
  intros Hin Hstart.
  destruct (step_start st raw_line Hin Hstart) as (m & _ & Hstep).
  destruct (start_entry_current st (strip raw_line) m) as (cur & Hcur & _ & Hkey & _).
  exists (start_entry st (strip raw_line) m), cur.
  split; [exact Hstep|]. split; [exact Hcur|]. split.
  - intros pre k tail Hline Hpre Hk Hnc Hend. rewrite Hkey, Hline.
    apply (key_of_line_found pre k tail Hpre Hk); [|exact Hend].
    clear -Hnc. induction k as [|c k IH]; [reflexivity|].
    simpl in *. apply orb_false_iff in Hnc as [Hc Hnc].
    unfold Re.not_c at 1. rewrite ch_eqb_sym, Hc. exact (IH Hnc).
  - intros Hno. rewrite Hkey. apply key_of_line_unknown, Hno.
Qed.

Lemma C5_witness :
  exists st' cur,
    step init_state "  @Article{smith2020,  " = Ok st'
    /\ current_entry st' = Some cur /\ entry_key cur = "smith2020".
Proof.
  destruct (C5_citation_key init_state "  @Article{smith2020,  " eq_refl eq_refl)
    as (st' & cur & Hstep & Hcur & Hkey & _).
  exists st', cur. split; [exact Hstep|]. split; [exact Hcur|].
  apply (Hkey "@Article" "smith2020" ","); reflexivity || discriminate.
Defined.

(** C5 as stated fails: a start line without a comma still yields the
    text after the brace, not "unknown". *)
Lemma C5_counterexample :
  contains "," "@article{k1" = false
  /\ is_start_line "@article{k1" = true
  /\ exists st cur,
       step init_state "@article{k1" = Ok st /\ current_entry st = Some cur
       /\ entry_key cur = "k1" /\ entry_key cur <> "unknown".
Proof.
  split; [reflexivity|]. split; [reflexivity|].
  eexists _, _. split; [reflexivity|]. split; [reflexivity|].
  split; [reflexivity | discriminate].
Qed.

Lemma no_comma_forallb k : contains "," k = false -> forallb (Re.not_c ",") k = true.
Proof.
  induction k as [|c k IH]; intros H; [reflexivity|].
  simpl in *. apply orb_false_iff in H as [Hc H].
  unfold Re.not_c at 1. rewrite ch_eqb_sym, Hc. exact (IH H).
Qed.

(** C10: the key is copied from the start line as it stands.  When the
    first opening brace of a start line is followed by a non-empty run
    [k] of characters other than commas and then a comma, the key of the
    new entry is [k] itself, leading and trailing spaces included. *)
Theorem C10_key_is_not_trimmed (st : pstate) (pre k rest : str) :
  let raw_line := pre ++ "{" ++ k ++ "," ++ rest in
  in_entry st = false ->
  is_start_line (strip raw_line) = true ->
  contains "{" pre = false ->
  k <> [] -> contains "," k = false ->
  exists st' cur,
    step st raw_line = Ok st' /\ current_entry st' = Some cur
    /\ entry_key cur = k.
Proof.
  intros raw_line Hin Hstart Hpre Hk Hnc.
  destruct (step_start st raw_line Hin Hstart) as (m & _ & Hstep).
  destruct (start_entry_current st (strip raw_line) m) as (cur & Hcur & _ & Hkey & _).
  exists (start_entry st (strip raw_line) m), cur.
  split; [exact Hstep|]. split; [exact Hcur|].
  rewrite Hkey. subst raw_line.
  change (pre ++ "{" ++ k ++ "," ++ rest)
    with (pre ++ "{"%char :: k ++ ","%char :: rest).
  rewrite strip_between by reflexivity.
  apply (key_of_line_found (lstrip pre) k (","%char :: rstrip rest)).
  - apply no_brace_no_key_start, contains_lstrip, Hpre.
  - exact Hk.
  - apply no_comma_forallb, Hnc.
  - reflexivity.
Qed.

Lemma C10_witness :
  exists st' cur,
    step init_state "@article{ k1 , year = 2020}" = Ok st'
    /\ current_entry st' = Some cur /\ entry_key cur = " k1 ".
Proof.
  apply (C10_key_is_not_trimmed init_state "@article" " k1 " " year = 2020}");
    reflexivity || discriminate.
Defined.

(** The same line through the whole parser. *)
Example key_with_spaces_parsed :
  parse_bibtex_file ["@article{ k1 , year = 2020}"]
  = Ok [mkEntry "article" " k1 " ∅ ["@article{ k1 , year = 2020}"]].
Proof. reflexivity. Qed.

(** ** The year label *)

Section YearFacts.
Import Re ReFacts.

Lemma match_at_year pos rest :
  match_at year_re false pos rest
  = if four_digits_at rest then Some (RMatch pos (pos + 4) []) else None.
Proof.
  unfold match_at, four_digits_at.
  destruct rest as [|a [|b [|c [|d rest]]]]; simpl;
    repeat match goal with
           | |- context [is_digit ?x] => destruct (is_digit x); simpl
           end;
    try reflexivity.
  do 2 f_equal. lia.
Qed.

Lemma four_digits_at_window c pre y post :
  length y = 4 ->
  four_digits_at ((c :: pre) ++ y ++ post)
  = four_digits_at ((c :: pre) ++ take 3 y).
Proof.
  intros Hy. unfold four_digits_at.
  replace (take 4 ((c :: pre) ++ y ++ post))
    with (take 4 ((c :: pre) ++ take 3 y)); [reflexivity|].
  destruct y as [|y1 [|y2 [|y3 [|y4 [|]]]]]; try discriminate.
  destruct pre as [|p1 [|p2 [|p3 pre]]]; reflexivity.
Qed.

Lemma search_year_skip pre y post pos :
  length y = 4 -> has_four_digits (pre ++ take 3 y) = false ->
  search_from year_re false pos (pre ++ y ++ post)
  = search_from year_re false (pos + length pre) (y ++ post).
Proof.
  intros Hy. revert pos. induction pre as [|c pre IH]; intros pos H.
  - simpl. rewrite Nat.add_0_r. reflexivity.
  - change (has_four_digits ((c :: pre) ++ take 3 y))
      with (four_digits_at ((c :: pre) ++ take 3 y)
            || has_four_digits (pre ++ take 3 y)) in H.
    apply orb_false_iff in H as [H1 H2].
    change ((c :: pre) ++ y ++ post) with (c :: (pre ++ y ++ post)).
    rewrite search_from_miss.
    + rewrite (IH (S pos) H2). f_equal. simpl. lia.
    + rewrite match_at_year.
      change (c :: (pre ++ y ++ post)) with ((c :: pre) ++ y ++ post).
      rewrite (four_digits_at_window _ _ _ _ Hy), H1. reflexivity.
Qed.

Lemma search_year_none s pos :
  has_four_digits s = false -> search_from year_re false pos s = None.
Proof.
  revert pos. induction s as [|c s IH]; intros pos H.
  - reflexivity.
  - change (has_four_digits (c :: s))
      with (four_digits_at (c :: s) || has_four_digits s) in H.
    apply orb_false_iff in H as [H1 H2].
    rewrite search_from_miss by (rewrite match_at_year, H1; reflexivity).
    apply IH, H2.
Qed.

Lemma year_label_found pre y post :
  length y = 4 -> forallb is_digit y = true ->
  has_four_digits (pre ++ take 3 y) = false ->
  year_label (pre ++ y ++ post) = Some y.
Proof.
  intros Hy Hd Hpre. unfold year_label, search.
  assert (Ht : truthy (pre ++ y ++ post) = true).
  { destruct pre; [|reflexivity]. destruct y; [discriminate | reflexivity]. }
  rewrite Ht, (search_year_skip _ _ _ _ Hy Hpre).
  assert (H4 : four_digits_at (y ++ post) = true).
  { unfold four_digits_at. rewrite <- Hy, take_app_length, Hy, Hd. reflexivity. }
  rewrite (search_from_hit _ _ _ (RMatch (length pre) (length pre + 4) [])).
  - simpl. replace (length pre + 4 - length pre) with (length y) by lia.
    rewrite drop_app_length, take_app_length. reflexivity.
  - rewrite match_at_year, H4. reflexivity.
Qed.

Lemma year_label_none s : has_four_digits s = false -> year_label s = None.
Proof.
  intros H. unfold year_label, search. rewrite (search_year_none _ _ H).
  destruct (truthy s); reflexivity.
Qed.
End YearFacts.

(** C4 (as amended): the year label is the first four decimal digits in a
    row found in the raw value of the field "year" (no such window starts
    earlier), whether or not further digits stand before or after them, and
    that label is counted once in the year table; a value without four
    decimal digits in a row leaves the year table as it was.  "2020."
    gives "2020", "in press" gives nothing and "12345" gives "1234". *)
Theorem C4_year_extraction (stats : Stats) (entry : Entry) :
  let year := get (fields entry) "year" in
  (forall pre y post,
      year = pre ++ y ++ post ->
      length y = 4 -> forallb is_digit y = true ->
      has_four_digits (pre ++ take 3 y) = false ->
      year_label year = Some y
      /\ years (count_entry stats entry) = incr y (years stats))
  /\ (has_four_digits year = false ->
      year_label year = None
      /\ years (count_entry stats entry) = years stats)
  /\ year_label "2020." = Some "2020"
  /\ year_label "in press" = None
  /\ year_label "12345" = Some "1234".
Proof.
  intros year. split; [|split; [|repeat split; reflexivity]].
  - intros pre y post Hyear Hy Hd Hpre.
    assert (H : year_label year = Some y).
    { rewrite Hyear. apply year_label_found; assumption. }
    split; [exact H|]. rewrite count_entry_years. fold year. rewrite H.
    reflexivity.
  - intros Hno. pose proof (year_label_none _ Hno) as H.
    split; [exact H|]. rewrite count_entry_years. fold year. rewrite H.
    reflexivity.
Qed.

Lemma C4_witness :
  years (count_entry (mkStats 0 ∅ ∅ ∅ ∅ ∅)
           (mkEntry "article" "k1" {["year" := "May 2020."]} []))
  = incr "2020" ∅
  /\ years (count_entry (mkStats 0 ∅ ∅ ∅ ∅ ∅)
              (mkEntry "article" "k2" {["year" := "in press"]} []))
     = ∅.
Proof.
  split.
  - apply (proj1 (C4_year_extraction (mkStats 0 ∅ ∅ ∅ ∅ ∅)
             (mkEntry "article" "k1" {["year" := "May 2020."]} []))
             "May " "2020" "."); reflexivity.
  - apply (proj1 (proj2 (C4_year_extraction (mkStats 0 ∅ ∅ ∅ ∅ ∅)
             (mkEntry "article" "k2" {["year" := "in press"]} [])))).
    reflexivity.
Defined.

(** C4 as stated fails on a value whose digits run on: "12345" has one
    run of digits, five long, so no run of exactly four digits, yet the
    entry is counted under "1234"; in "12345 2020" the first run of exactly
    four digits is "2020", and the label is "1234" again. *)
Lemma C4_counterexample :
  digit_runs "12345" = ["12345"]
  /\ first_run_of_exactly_four "12345" = None
  /\ year_label "12345" = Some "1234"
  /\ years (count_entry (mkStats 0 ∅ ∅ ∅ ∅ ∅)
              (mkEntry "article" "k1" {["year" := "12345"]} []))
     = {["1234" := 1]}
  /\ first_run_of_exactly_four "12345 2020" = Some "2020"
  /\ year_label "12345 2020" = Some "1234".
Proof. repeat split; vm_compute; reflexivity. Qed.

(** ** Venue names *)

Section VenueFacts.
Import Re ReFacts.

Lemma nonspace_tail rest :
  starts_with_space rest = false ->
  match rest with [] => true | c :: _ => negb (is_space c) end = true.
Proof. destruct rest as [|c r]; simpl; [reflexivity|]. intros ->. reflexivity. Qed.

Lemma lower_length s : length (lower s) = length s.
Proof. apply length_map. Qed.

Lemma match_at_proceedings p ws rest :
  lower p = "proceedings of" -> forallb is_space ws = true ->
  starts_with_space rest = false ->
  match_at proceedings_re false 0 (p ++ ws ++ rest)
  = Some (RMatch 0 (S (13 + length ws)) []).
Proof.
  intros Hp Hws Hrest. unfold match_at, proceedings_re.
  cbn [match_re Nat.eqb].
  rewrite (match_re_LitCI "proceedings of" p) by exact Hp.
  cbn [match_re].
  assert (Hlen : length p = 14) by (rewrite <- lower_length, Hp; reflexivity).
  erewrite greedy_rep_longest;
    [reflexivity | exact Hws | apply nonspace_tail, Hrest |].
  rewrite Hlen. reflexivity.
Qed.

Lemma match_at_the t ws rest :
  lower t = "the" -> ws <> [] -> forallb is_space ws = true ->
  starts_with_space rest = false ->
  match_at the_re false 0 (t ++ ws ++ rest)
  = Some (RMatch 0 (S (2 + length ws)) []).
Proof.
  intros Ht Hne Hws Hrest. unfold match_at, the_re.
  cbn [match_re Nat.eqb].
  rewrite (match_re_LitCI "the" t) by exact Ht.
  assert (Hlen : length t = 3) by (rewrite <- lower_length, Ht; reflexivity).
  destruct ws as [|w ws]; [congruence|].
  simpl in Hws. apply andb_true_iff in Hws as [Hw Hws].
  unfold Plus. cbn [match_re app]. rewrite Hw.
  erewrite greedy_rep_longest;
    [reflexivity | exact Hws | apply nonspace_tail, Hrest |].
  rewrite Hlen. reflexivity.
Qed.

Lemma match_at_proceedings_the t s :
  lower t = "the" -> match_at proceedings_re false 0 (t ++ s) = None.
Proof.
  intros Ht. destruct t as [|t1 t]; [discriminate|].
  simpl in Ht. injection Ht as H1 _.
  unfold match_at, proceedings_re. simpl.
  unfold lit_ci at 1. rewrite H1. reflexivity.
Qed.

Lemma sub_anchored_hit r s e cs :
  match_at (Seq Bol r) false 0 s = Some (RMatch 0 (S e) cs) ->
  sub (Seq Bol r) "" s = drop (S e) s.
Proof.
  intros H. unfold sub. rewrite (matches_Bol_hit _ _ _ _ H). reflexivity.
Qed.

Lemma sub_anchored_miss r s :
  match_at (Seq Bol r) false 0 s = None -> sub (Seq Bol r) "" s = s.
Proof.
  intros H. unfold sub. rewrite (matches_Bol_miss _ _ H). reflexivity.
Qed.

(** [re.sub(r'^proceedings of\s*', '', s, flags=re.IGNORECASE)] *)
Lemma sub_proceedings p ws rest :
  lower p = "proceedings of" -> forallb is_space ws = true ->
  starts_with_space rest = false ->
  sub proceedings_re "" (p ++ ws ++ rest) = rest.
Proof.
  intros Hp Hws Hrest.
  pose proof (match_at_proceedings p ws rest Hp Hws Hrest) as Hm.
  unfold proceedings_re in *. rewrite (sub_anchored_hit _ _ _ _ Hm).
  assert (Hlen : length p = 14) by (rewrite <- lower_length, Hp; reflexivity).
  rewrite app_assoc.
  replace (S (13 + length ws)) with (length (p ++ ws))
    by (rewrite length_app, Hlen; reflexivity).
  apply drop_app_length.
Qed.

(** [re.sub(r'^the\s+', '', s, flags=re.IGNORECASE)] *)
Lemma sub_the t ws rest :
  lower t = "the" -> ws <> [] -> forallb is_space ws = true ->
  starts_with_space rest = false ->
  sub the_re "" (t ++ ws ++ rest) = rest.
Proof.
  intros Ht Hne Hws Hrest.
  pose proof (match_at_the t ws rest Ht Hne Hws Hrest) as Hm.
  unfold the_re in *. rewrite (sub_anchored_hit _ _ _ _ Hm).
  assert (Hlen : length t = 3) by (rewrite <- lower_length, Ht; reflexivity).
  rewrite app_assoc.
  replace (S (2 + length ws)) with (length (t ++ ws))
    by (rewrite length_app, Hlen; reflexivity).
  apply drop_app_length.
Qed.

Lemma clean_conference_proceedings v p ws rest :
  remove_braces v = p ++ ws ++ rest ->
  lower p = "proceedings of" -> forallb is_space ws = true ->
  starts_with_space rest = false ->
  clean_conference v = rest.
Proof.
  intros Hv Hp Hws Hrest. unfold clean_conference. rewrite Hv.
  apply sub_proceedings; assumption.
Qed.

Lemma clean_journal_proceedings v p ws rest :
  remove_braces v = p ++ ws ++ rest ->
  lower p = "proceedings of" -> forallb is_space ws = true ->
  starts_with_space rest = false ->
  clean_journal v = sub the_re "" rest.
Proof.
  intros Hv Hp Hws Hrest. unfold clean_journal. rewrite Hv.
  rewrite sub_proceedings by assumption. reflexivity.
Qed.

Lemma clean_journal_the v t ws rest :
  remove_braces v = t ++ ws ++ rest ->
  lower t = "the" -> ws <> [] -> forallb is_space ws = true ->
  starts_with_space rest = false ->
  clean_journal v = rest.
Proof.
  intros Hv Ht Hne Hws Hrest. unfold clean_journal. rewrite Hv.
  unfold proceedings_re.
  rewrite sub_anchored_miss by (apply match_at_proceedings_the, Ht).
  apply sub_the; assumption.
Qed.

Lemma remove_braces_truthy v p s :
  remove_braces v = p ++ s -> p <> [] -> truthy v = true.
Proof.
  intros Hv Hp. destruct v; [|reflexivity].
  destruct p; [congruence | discriminate].
Qed.
End VenueFacts.

Lemma extract_venue_info_eq entry :
  extract_venue_info entry
  = (strip (if truthy (journal_field entry)
            then clean_journal (journal_field entry) else journal_field entry),
     strip (if truthy (conference_field entry)
            then clean_conference (conference_field entry)
            else conference_field entry)).
Proof. reflexivity. Qed.

Lemma clean_conference_the v t s :
  remove_braces v = t ++ s -> lower t = "the" -> clean_conference v = t ++ s.
Proof.
  intros Hv Ht. unfold clean_conference. rewrite Hv. unfold proceedings_re.
  apply sub_anchored_miss, match_at_proceedings_the, Ht.
Qed.

(** C3 (as amended): a leading "proceedings of" in any letter case, with
    the whitespace after it, is removed from journal and conference
    names; a leading "the" in any letter case followed by whitespace is
    removed from journal names only and kept in conference names.  The
    booktitle "Proceedings of the International Conference on Foo" becomes
    "the International Conference on Foo"; the journal "The Journal of
    Bar" becomes "Journal of Bar". *)
Theorem C3_venue_prefixes (entry : Entry) (p ws rest : str) :
  forallb is_space ws = true ->
  starts_with_space rest = false ->
  (lower p = "proceedings of" ->
   remove_braces (conference_field entry) = p ++ ws ++ rest ->
   snd (extract_venue_info entry) = strip rest)
  /\ (lower p = "proceedings of" ->
      remove_braces (journal_field entry) = p ++ ws ++ rest ->
      fst (extract_venue_info entry) = strip (Re.sub the_re "" rest))
  /\ (lower p = "the" -> ws <> [] ->
      remove_braces (journal_field entry) = p ++ ws ++ rest ->
      fst (extract_venue_info entry) = strip rest)
  /\ (lower p = "the" ->
      remove_braces (conference_field entry) = p ++ ws ++ rest ->
      snd (extract_venue_info entry) = strip (p ++ ws ++ rest))
  /\ extract_venue_info
       (mkEntry "inproceedings" "k"
          {["booktitle" := "Proceedings of the International Conference on Foo"]} [])
     = ("", "the International Conference on Foo")
  /\ extract_venue_info
       (mkEntry "article" "k" {["journal" := "The Journal of Bar"]} [])
     = ("Journal of Bar", "").
Proof.
  intros Hws Hrest. rewrite extract_venue_info_eq. cbn [fst snd].
  split; [|split; [|split; [|split; [|split; vm_compute; reflexivity]]]].
  - intros Hp Hv.
    rewrite (remove_braces_truthy _ p _ Hv) by (destruct p; discriminate).
    rewrite (clean_conference_proceedings _ p ws rest); auto.
  - intros Hp Hv.
    rewrite (remove_braces_truthy _ p _ Hv) by (destruct p; discriminate).
    rewrite (clean_journal_proceedings _ p ws rest); auto.
  - intros Hp Hne Hv.
    rewrite (remove_braces_truthy _ p _ Hv) by (destruct p; discriminate).
    rewrite (clean_journal_the _ p ws rest); auto.
  - intros Hp Hv.
    rewrite (remove_braces_truthy _ p _ Hv) by (destruct p; discriminate).
    rewrite (clean_conference_the _ p (ws ++ rest)); auto.
Qed.

Lemma C3_witness :
  snd (extract_venue_info
         (mkEntry "inproceedings" "k2"
            {["booktitle" := "{PROCEEDINGS OF   Bar Conf}"]} []))
  = "Bar Conf"
  /\ fst (extract_venue_info
            (mkEntry "article" "k1" {["journal" := "{THE  Foo Journal}"]} []))
     = "Foo Journal".
Proof.
  split.
  - apply (proj1 (C3_venue_prefixes
                    (mkEntry "inproceedings" "k2"
                       {["booktitle" := "{PROCEEDINGS OF   Bar Conf}"]} [])
                    "PROCEEDINGS OF" "   " "Bar Conf" eq_refl eq_refl));
      reflexivity.
  - apply (proj1 (proj2 (proj2 (C3_venue_prefixes
                    (mkEntry "article" "k1" {["journal" := "{THE  Foo Journal}"]} [])
                    "THE" "  " "Foo Journal" eq_refl eq_refl))));
      reflexivity || discriminate.
Defined.

(** C3 as stated fails on its own example: the conference name keeps
    "the". *)
Lemma C3_counterexample :
  snd (extract_venue_info
         (mkEntry "inproceedings" "k"
            {["booktitle" := "Proceedings of the International Conference on Foo"]} []))
  <> "International Conference on Foo".
Proof. vm_compute. discriminate. Qed.

(** ** The line loop *)

Lemma run_app st l1 l2 :
  run st (l1 ++ l2)
  = match run st l1 with
    | Ok st' => run st' l2
    | Raise e => Raise e
    end.
Proof.
  revert st. induction l1 as [|l l1 IH]; intros st; simpl; [reflexivity|].
  destruct (step st l); [apply IH | reflexivity].
Qed.

Lemma step_skipped st raw_line :
  skipped (strip raw_line) = true -> step st raw_line = Ok st.
Proof. intros H. unfold step. rewrite H. reflexivity. Qed.

Lemma step_in_entry st raw_line :
  in_entry st = true -> skipped (strip raw_line) = false ->
  step st raw_line = continue_entry st (strip raw_line).
Proof. intros Hin Hs. unfold step. rewrite Hs, Hin. reflexivity. Qed.

Lemma step_keeps_open st cur raw_line :
  in_entry st = true -> current_entry st = Some cur -> keeps_open raw_line ->
  step st raw_line
  = Ok (mkState (entries st) (Some cur)
          (entry_content st ++ accumulated [raw_line]) true).
Proof.
  intros Hin Hcur Hk. unfold accumulated. cbn [map List.filter].
  destruct (skipped (strip raw_line)) eqn:Hs; cbn [negb].
  - rewrite (step_skipped _ _ Hs), app_nil_r.
    destruct st; simpl in *. subst. reflexivity.
  - destruct Hk as [Hk|Hk]; [congruence|].
    rewrite (step_in_entry _ _ Hin Hs). unfold continue_entry.
    rewrite Hk, Hcur, Hin. reflexivity.
Qed.

Lemma step_closes st cur raw_line :
  in_entry st = true -> current_entry st = Some cur ->
  skipped (strip raw_line) = false -> closes_entry (strip raw_line) = true ->
  step st raw_line
  = Ok (let content := entry_content st ++ [strip raw_line] in
        let closed := set_fields cur (parse_entry_fields (join_char nl content)) in
        mkState (entries st ++ [closed]) (Some closed) content false).
Proof.
  intros Hin Hcur Hs Hc. rewrite (step_in_entry _ _ Hin Hs).
  unfold continue_entry. rewrite Hc, Hcur. reflexivity.
Qed.

Lemma accumulated_cons l ls : accumulated (l :: ls) = accumulated [l] ++ accumulated ls.
Proof. unfold accumulated. simpl. destruct (skipped (strip l)); reflexivity. Qed.

Lemma run_keeps_open pre st cur :
  in_entry st = true -> current_entry st = Some cur -> Forall keeps_open pre ->
  run st pre
  = Ok (mkState (entries st) (Some cur) (entry_content st ++ accumulated pre) true).
Proof.
  revert st. induction pre as [|l pre IH]; intros st Hin Hcur Hall.
  - simpl. unfold accumulated. simpl. rewrite app_nil_r.
    destruct st; simpl in *. subst. reflexivity.
  - inversion Hall as [|? ? Hl Hpre]; subst. simpl.
    rewrite (step_keeps_open _ _ _ Hin Hcur Hl).
    rewrite IH by (reflexivity || exact Hpre). simpl.
    rewrite (accumulated_cons l pre), app_assoc. reflexivity.
Qed.

(** C2 (as amended): inside an entry, blank lines and lines that start
    with a percent sign (after trimming) are skipped: they are neither
    accumulated nor able to close the entry.  Among the other lines the
    entry closes exactly at the first one that contains a closing brace,
    has no more opening than closing braces, and ends with a closing
    brace; every earlier such line is accumulated, trimmed, into the
    entry. *)
Theorem C2_entry_closes_at_first_closing_line
    (st : pstate) (cur : Entry) (pre : list str) (raw_line : str) :
  in_entry st = true -> current_entry st = Some cur ->
  Forall keeps_open pre ->
  skipped (strip raw_line) = false ->
  closes_entry (strip raw_line) = true ->
  let open_content := entry_content st ++ accumulated pre in
  let content := open_content ++ [strip raw_line] in
  let closed := set_fields cur (parse_entry_fields (join_char nl content)) in
  run st pre = Ok (mkState (entries st) (Some cur) open_content true)
  /\ run st (pre ++ [raw_line])
     = Ok (mkState (entries st ++ [closed]) (Some closed) content false).
Proof.
  intros Hin Hcur Hpre Hs Hc open_content content closed.
  pose proof (run_keeps_open pre st cur Hin Hcur Hpre) as Hrun.
  split; [exact Hrun|].
  rewrite run_app, Hrun. simpl.
  rewrite (step_closes _ cur raw_line) by (reflexivity || assumption).
  reflexivity.
Qed.

Lemma C2_witness :
  run (mkState [] (Some (mkEntry "article" "k1" ∅ [])) ["@article{k1,"] true)
    (["  title = {A {B}"; ""; "% note = {x}"; "  C},"] ++ ["  year = 2020 }"])
  = Ok (mkState
          [mkEntry "article" "k1" {["title" := "{A {B}" ++ [nl] ++ "C}"; "year" := "2020"]} []]
          (Some (mkEntry "article" "k1"
                   {["title" := "{A {B}" ++ [nl] ++ "C}"; "year" := "2020"]} []))
          ["@article{k1,"; "title = {A {B}"; "C},"; "year = 2020 }"]
          false).
Proof.
  assert (Hpre : Forall keeps_open
                   ["  title = {A {B}"; ""; "% note = {x}"; "  C},"]).
  { repeat (constructor;
            [first [left; reflexivity | right; reflexivity]|]).
    constructor. }
  destruct (C2_entry_closes_at_first_closing_line
    (mkState [] (Some (mkEntry "article" "k1" ∅ [])) ["@article{k1,"] true)
    (mkEntry "article" "k1" ∅ [])
    ["  title = {A {B}"; ""; "% note = {x}"; "  C},"] "  year = 2020 }"
    eq_refl eq_refl Hpre eq_refl eq_refl) as [_ H].
  rewrite H. vm_compute. reflexivity.
Defined.

(** C2 as stated fails: a commented-out field inside an entry contains a
    closing brace, is balanced and ends with a closing brace, yet it does
    not close the entry and is not accumulated either. *)
Lemma C2_counterexample :
  closes_entry "% note = {x}" = true
  /\ run init_state ["@article{k1,"; "% note = {x}"]
     = Ok (mkState [] (Some (mkEntry "article" "k1" ∅ [])) ["@article{k1,"] true).
Proof. split; reflexivity. Qed.

(** ** Totality *)

Lemma state_ok_init : state_ok init_state.
Proof. intros H. discriminate. Qed.

Lemma start_entry_ok st line m : state_ok (start_entry st line m).
Proof.
  unfold start_entry, state_ok.
  destruct (closes_on_start line); simpl; congruence.
Qed.

Lemma continue_entry_ok st line :
  in_entry st = true -> state_ok st ->
  exists st', continue_entry st line = Ok st' /\ state_ok st'.
Proof.
  intros Hin Hok. unfold continue_entry.
  destruct (current_entry st) as [cur|] eqn:Hcur.
  - destruct (closes_entry line); eexists; (split; [reflexivity|]);
      unfold state_ok; simpl; congruence.
  - exfalso. exact (Hok Hin Hcur).
Qed.

Lemma step_total st raw_line :
  state_ok st -> exists st', step st raw_line = Ok st' /\ state_ok st'.
Proof.
  intros Hok. unfold step.
  destruct (skipped (strip raw_line)); [eauto|].
  destruct (in_entry st) eqn:Hin; simpl.
  - apply continue_entry_ok; assumption.
  - destruct (contains "@" (strip raw_line)); [|eauto].
    destruct (Re.search entry_start_re (strip raw_line)) as [m|]; [|eauto].
    eexists. split; [reflexivity | apply start_entry_ok].
Qed.

Lemma run_total lines st :
  state_ok st -> exists st', run st lines = Ok st' /\ state_ok st'.
Proof.
  revert st. induction lines as [|l lines IH]; intros st Hok; simpl.
  - eauto.
  - destruct (step_total st l Hok) as (st1 & -> & Hok1). apply IH, Hok1.
Qed.

Lemma parse_bibtex_file_total lines : exists es, parse_bibtex_file lines = Ok es.
Proof.
  unfold parse_bibtex_file.
  destruct (run_total lines init_state state_ok_init) as (st & -> & _). eauto.
Qed.

Lemma parse_all_total files : exists es, parse_all files = Ok es.
Proof.
  induction files as [|f files [es IH]]; simpl; [eauto|].
  destruct (parse_bibtex_file_total f) as [es1 ->]. rewrite IH. eauto.
Qed.

(** A start line that does not close its entry opens it and adds
    nothing to the list of entries. *)
Lemma step_opens st raw_line :
  in_entry st = false -> is_start_line (strip raw_line) = true ->
  closes_on_start (strip raw_line) = false ->
  exists cur,
    step st raw_line
    = Ok (mkState (entries st) (Some cur) [strip raw_line] true).
Proof.
  intros Hin Hstart Hclose.
  destruct (step_start st raw_line Hin Hstart) as (m & _ & ->).
  unfold start_entry. rewrite Hclose. eauto.
Qed.

(** C6: parsing never raises, whatever the lines are, and so neither does
    the analysis of a list of files; an entry that is opened and never
    closed before the end of the input adds no entry and leaves the
    entries found before it in place. *)
Theorem C6_parsing_is_total :
  (forall lines : list str, exists es, parse_bibtex_file lines = Ok es)
  /\ (forall files : list (list str), exists stats, analyze_files files = Ok stats)
  /\ (forall (st : pstate) (start_line : str) (rest : list str),
        in_entry st = false ->
        is_start_line (strip start_line) = true ->
        closes_on_start (strip start_line) = false ->
        Forall keeps_open rest ->
        exists st',
          run st (start_line :: rest) = Ok st'
          /\ entries st' = entries st /\ in_entry st' = true).
Proof.
  split; [exact parse_bibtex_file_total|]. split.
  - intros files. unfold analyze_files.
    destruct (parse_all_total files) as [es ->]. eauto.
  - intros st start_line rest Hin Hstart Hclose Hrest.
    destruct (step_opens st start_line Hin Hstart Hclose) as [cur Hstep].
    simpl. rewrite Hstep.
    rewrite (run_keeps_open rest _ cur) by (reflexivity || exact Hrest).
    eexists. split; [reflexivity|]. split; reflexivity.
Qed.

Lemma C6_witness :
  exists st',
    run init_state ["@book{b1, title = {T}}"; "@article{k1,"; "  title = {Unclosed"; "  year = 2020,"]
    = Ok st'
    /\ entries st' = [mkEntry "book" "b1" ∅ ["@book{b1, title = {T}}"]]
    /\ in_entry st' = true.
Proof.
  assert (Hrest : Forall keeps_open ["  title = {Unclosed"; "  year = 2020,"]).
  { repeat (constructor; [right; reflexivity|]). constructor. }
  destruct (proj2 (proj2 C6_parsing_is_total)
              (mkState [mkEntry "book" "b1" ∅ ["@book{b1, title = {T}}"]]
                 (Some (mkEntry "book" "b1" ∅ ["@book{b1, title = {T}}"]))
                 ["@book{b1, title = {T}}"] false)
              "@article{k1," ["  title = {Unclosed"; "  year = 2020,"]
              eq_refl eq_refl eq_refl Hrest) as (st' & Hrun & Hes & Hin).
  exists st'. split; [exact Hrun|]. split; [exact Hes | exact Hin].
Defined.

(** ** Single-line entries *)

(** An entry that closes on its start line is appended with an empty
    field mapping: the same-line branch never calls
    [parse_entry_fields]. *)
Lemma single_line_entry_has_no_fields st raw_line :
  in_entry st = false -> is_start_line (strip raw_line) = true ->
  closes_on_start (strip raw_line) = true ->
  exists e st',
    step st raw_line = Ok st' /\ entries st' = entries st ++ [e]
    /\ in_entry st' = false /\ fields e = ∅.
Proof.
  intros Hin Hstart Hclose.
  destruct (step_start st raw_line Hin Hstart) as (m & _ & ->).
  unfold start_entry. rewrite Hclose.
  eexists _, _. split; [reflexivity|]. simpl. auto.
Qed.

(** C1 at the input [@article{k1, year=2020}]: one entry comes out with
    the lowercased type and the key, but its field mapping is empty,
    although [parse_entry_fields] finds the field in the same text. *)
Theorem C1_single_line_entry_loses_fields :
  parse_bibtex_file ["@article{k1, year=2020}"]
  = Ok [mkEntry "article" "k1" ∅ ["@article{k1, year=2020}"]]
  /\ parse_entry_fields "@article{k1, year=2020}" = {["year" := "2020"]}.
Proof. split; vm_compute; reflexivity. Qed.

(** The two-entry scenario with single-line entries: both entries are
    counted, no author, venue or year is. *)
Example two_single_line_entries :
  analyze_files
    [["@article{k1, author = {A and B}, journal = {The Foo Journal}, year = {1999}}";
      "@inproceedings{k2, author = {C}, booktitle = {Proceedings of Bar Conf}, year = {2001}}"]]
  = Ok (mkStats 2 {["article" := 1; "inproceedings" := 1]} ∅ ∅ ∅ ∅).
Proof. vm_compute. reflexivity. Qed.

(** ** The rounds of [matches] never run out *)

Section Fuel.
Import Re.

Lemma greedy_rep_advances {A} p (k : nat -> str -> caps -> option A) rest pos cs x :
  greedy_rep p k pos rest cs = Some x -> advances pos rest k x.
Proof.
  revert pos. induction rest as [|c rest IH]; intros pos H; simpl in H.
  - exists pos, [], cs. auto.
  - destruct (p c); [|exists pos, (c :: rest), cs; auto].
    destruct (greedy_rep p k (S pos) rest cs) as [y|] eqn:E.
    + injection H as <-. destruct (IH _ E) as (pos' & rest' & cs' & Hk & Hle & Hlen).
      exists pos', rest', cs'. simpl. split; [exact Hk|]. lia.
    + exists pos, (c :: rest), cs. auto.
Qed.

Lemma lazy_rep_advances {A} p (k : nat -> str -> caps -> option A) rest pos cs x :
  lazy_rep p k pos rest cs = Some x -> advances pos rest k x.
Proof.
  revert pos. induction rest as [|c rest IH]; intros pos H; simpl in H.
  - destruct (k pos [] cs) eqn:E; [|discriminate].
    injection H as <-. exists pos, [], cs. auto.
  - destruct (k pos (c :: rest) cs) eqn:E.
    + injection H as <-. exists pos, (c :: rest), cs. auto.
    + destruct (p c); [|discriminate].
      destruct (IH _ H) as (pos' & rest' & cs' & Hk & Hle & Hlen).
      exists pos', rest', cs'. simpl. split; [exact Hk|]. lia.
Qed.

Lemma match_re_advances r :
  forall A pos rest cs (k : nat -> str -> caps -> option A) x,
    match_re r A pos rest cs k = Some x -> advances pos rest k x.
Proof.
  induction r as [|p|r1 IH1 r2 IH2|r1 IH1 r2 IH2|p|p|n r IH|r IH| |];
    intros A pos rest cs k x H; simpl in H.
  - exists pos, rest, cs. auto.
  - destruct rest as [|c rest]; [discriminate|].
    destruct (p c); [|discriminate].
    exists (S pos), rest, cs. simpl. split; [exact H|]. lia.
  - destruct (IH1 _ _ _ _ _ _ H) as (p1 & t1 & c1 & H1 & Hle1 & Hlen1).
    destruct (IH2 _ _ _ _ _ _ H1) as (p2 & t2 & c2 & H2 & Hle2 & Hlen2).
    exists p2, t2, c2. split; [exact H2|]. lia.
  - destruct (match_re r1 A pos rest cs k) eqn:E.
    + injection H as <-. exact (IH1 _ _ _ _ _ _ E).
    + exact (IH2 _ _ _ _ _ _ H).
  - exact (greedy_rep_advances _ _ _ _ _ _ H).
  - exact (lazy_rep_advances _ _ _ _ _ _ H).
  - destruct (IH _ _ _ _ _ _ H) as (p1 & t1 & c1 & H1 & Hle1 & Hlen1).
    exists p1, t1, ((n, take (p1 - pos) rest) :: c1). auto.
  - destruct (match_re r caps pos rest cs (fun _ _ cs' => Some cs')) as [cs'|];
      [|discriminate].
    exists pos, rest, cs'. auto.
  - destruct (Nat.eqb pos 0); [|discriminate]. exists pos, rest, cs. auto.
  - destruct rest as [|c [|d rest]]; try discriminate.
    + exists pos, [], cs. auto.
    + destruct (ch_eqb c nl); [|discriminate]. exists pos, [c], cs. auto.
Qed.

Lemma match_at_bounds r ma pos rest m :
  match_at r ma pos rest = Some m ->
  m_start m = pos /\ pos <= m_end m <= pos + length rest
  /\ (ma = true -> m_end m <> pos).
Proof.
  unfold match_at. intros H.
  destruct (match_re_advances _ _ _ _ _ _ _ H) as (pos' & rest' & cs' & Hk & Hle & Hlen).
  destruct (ma && Nat.eqb pos' pos) eqn:E; [discriminate|].
  injection Hk as <-. simpl. split; [reflexivity|]. split; [lia|].
  intros ->. simpl in E. apply Nat.eqb_neq in E. exact E.
Qed.

Lemma search_from_bounds r rest :
  forall ma pos m,
    search_from r ma pos rest = Some m ->
    pos <= m_start m /\ m_start m <= m_end m <= pos + length rest
    /\ (ma = true -> m_end m <> pos).
Proof.
  induction rest as [|c rest IH]; intros ma pos m H; simpl in H.
  - destruct (match_at r ma pos []) eqn:E; [|discriminate].
    injection H as <-. apply match_at_bounds in E. simpl in E.
    destruct E as (? & ? & ?). repeat split; auto; lia.
  - destruct (match_at r ma pos (c :: rest)) eqn:E.
    + injection H as <-. apply match_at_bounds in E. simpl in E.
      destruct E as (? & ? & ?). repeat split; auto; simpl; lia.
    + apply IH in H. simpl. destruct H as (? & ? & _).
      repeat split; lia.
Qed.

Lemma matches_loop_fuel r s :
  forall fuel1 fuel2 pos ma,
    pos <= length s ->
    rounds_left s pos ma < fuel1 -> rounds_left s pos ma < fuel2 ->
    matches_loop fuel1 r s pos ma = matches_loop fuel2 r s pos ma.
Proof.
  induction fuel1 as [|fuel1 IH]; intros fuel2 pos ma Hpos H1 H2; [lia|].
  destruct fuel2 as [|fuel2]; [lia|]. simpl.
  destruct (search_from r ma pos (drop pos s)) as [m|] eqn:E; [|reflexivity].
  apply search_from_bounds in E. rewrite length_drop in E.
  f_equal. unfold rounds_left in *.
  destruct (Nat.eqb (m_end m) (m_start m)) eqn:Ee.
  - apply Nat.eqb_eq in Ee. destruct E as (? & ? & Hma). destruct ma.
    + specialize (Hma eq_refl). apply IH; lia.
    + apply IH; lia.
  - apply Nat.eqb_neq in Ee. destruct E as (? & ? & _).
    apply IH; destruct ma; lia.
Qed.

(** More rounds than [matches] allows change nothing. *)
Lemma matches_enough_fuel r s fuel :
  2 * length s + 3 <= fuel -> matches_loop fuel r s 0 false = matches r s.
Proof.
  intros H. unfold matches. apply matches_loop_fuel; unfold rounds_left; lia.
Qed.
End Fuel.

Lemma C9_witness :
  entry_types
    (calculate_statistics [mkEntry "article" "k1" ∅ []; mkEntry "article" "k2" ∅ []])
  !! "article" = Some 2 /\ 1 <= 2.
Proof.
  split; [vm_compute; reflexivity|].
  apply (proj1 (C9_stored_counts_are_positive
                  [mkEntry "article" "k1" ∅ []; mkEntry "article" "k2" ∅ []]
                  "article" 2)).
  vm_compute. reflexivity.
Defined.

(** * Further properties of the analyzer *)

(** ** Characters *)

Lemma is_word_lower_char c : is_word (lower_char c) = is_word c.
Proof. destruct c as [[] [] [] [] [] [] [] []]; reflexivity. Qed.

Lemma word_not_space c : is_word c = true -> is_space c = false.
Proof. destruct c as [[] [] [] [] [] [] [] []]; vm_compute; congruence. Qed.

Lemma forallb_word_lower s : forallb is_word (lower s) = forallb is_word s.
Proof.
  induction s as [|c s IH]; [reflexivity|].
  simpl. rewrite is_word_lower_char, IH. reflexivity.
Qed.

(** ** Trimming is idempotent *)

Lemma lstrip_starts s : starts_with_space (lstrip s) = false.
Proof.
  induction s as [|c s IH]; [reflexivity|].
  simpl. destruct (is_space c) eqn:E; [exact IH|]. simpl. exact E.
Qed.

Lemma lstrip_id s : starts_with_space s = false -> lstrip s = s.
Proof. destruct s as [|c s]; simpl; [reflexivity|]. intros ->. reflexivity. Qed.

Lemma rstrip_starts s :
  starts_with_space s = false -> starts_with_space (rstrip s) = false.
Proof.
  destruct s as [|c s]; [reflexivity|]. simpl. intros Hc.
  change (c :: s) with ([] ++ c :: s).
  rewrite (rstrip_app_nonspace [] c s Hc). simpl. exact Hc.
Qed.

Lemma rstrip_ends s : starts_with_space (rev (rstrip s)) = false.
Proof. unfold rstrip. rewrite rev_involutive. apply lstrip_starts. Qed.

Lemma rstrip_id s : starts_with_space (rev s) = false -> rstrip s = s.
Proof. intros H. unfold rstrip. rewrite (lstrip_id _ H). apply rev_involutive. Qed.

Lemma strip_starts s : starts_with_space (strip s) = false.
Proof. unfold strip. apply rstrip_starts, lstrip_starts. Qed.

Lemma strip_ends s : starts_with_space (rev (strip s)) = false.
Proof. unfold strip. apply rstrip_ends. Qed.

Lemma strip_id s :
  starts_with_space s = false -> starts_with_space (rev s) = false ->
  strip s = s.
Proof.
  intros H1 H2. unfold strip. rewrite (lstrip_id _ H1). apply rstrip_id, H2.
Qed.

Lemma strip_idempotent s : strip (strip s) = strip s.
Proof. apply strip_id; [apply strip_starts | apply strip_ends]. Qed.

Lemma strip_words s : forallb is_word s = true -> strip s = s.
Proof.
  intros H. apply strip_id.
  - destruct s as [|c s]; [reflexivity|]. simpl in *.
    apply andb_true_iff in H as [H _]. apply word_not_space, H.
  - assert (Hr : forallb is_word (rev s) = true).
    { rewrite forallb_forall in *. intros x Hx. apply H, in_rev, Hx. }
    destruct (rev s) as [|c r]; [reflexivity|]. simpl in *.
    apply andb_true_iff in Hr as [Hr _]. apply word_not_space, Hr.
Qed.

(** ** What a successful match has consumed *)

Section Consumed.
Import Re.

Lemma greedy_rep_consumes {A} p (k : nat -> str -> caps -> option A) rest pos cs x :
  greedy_rep p k pos rest cs = Some x ->
  exists consumed rest',
    rest = consumed ++ rest' /\ forallb p consumed = true
    /\ k (pos + length consumed) rest' cs = Some x.
Proof.
  revert pos. induction rest as [|c rest IH]; intros pos H; simpl in H.
  - exists [], []. rewrite Nat.add_0_r. auto.
  - destruct (p c) eqn:Hc;
      [|exists [], (c :: rest); rewrite Nat.add_0_r; auto].
    destruct (greedy_rep p k (S pos) rest cs) as [y|] eqn:E.
    + injection H as <-. destruct (IH _ E) as (u & rest' & -> & Hu & Hk).
      exists (c :: u), rest'. simpl. rewrite Hc, Hu.
      replace (pos + S (length u)) with (S pos + length u) by lia. auto.
    + exists [], (c :: rest). rewrite Nat.add_0_r. auto.
Qed.

Lemma lazy_rep_consumes {A} p (k : nat -> str -> caps -> option A) rest pos cs x :
  lazy_rep p k pos rest cs = Some x ->
  exists consumed rest',
    rest = consumed ++ rest' /\ forallb p consumed = true
    /\ k (pos + length consumed) rest' cs = Some x.
Proof.
  revert pos. induction rest as [|c rest IH]; intros pos H; simpl in H.
  - destruct (k pos [] cs) eqn:E; [|discriminate]. injection H as <-.
    exists [], []. rewrite Nat.add_0_r. auto.
  - destruct (k pos (c :: rest) cs) eqn:E.
    + injection H as <-. exists [], (c :: rest). rewrite Nat.add_0_r. auto.
    + destruct (p c) eqn:Hc; [|discriminate].
      destruct (IH _ H) as (u & rest' & -> & Hu & Hk).
      exists (c :: u), rest'. simpl. rewrite Hc, Hu.
      replace (pos + S (length u)) with (S pos + length u) by lia. auto.
Qed.

(** The continuation of a successful match is run on a suffix of the
    subject, at the matching position; without groups the captures are
    handed on unchanged. *)
Lemma match_re_consumes r :
  forall A pos rest cs (k : nat -> str -> caps -> option A) x,
    match_re r A pos rest cs k = Some x ->
    exists consumed rest' cs',
      rest = consumed ++ rest'
      /\ k (pos + length consumed) rest' cs' = Some x
      /\ (group_free r = true -> cs' = cs).
Proof.
  induction r as [|p|r1 IH1 r2 IH2|r1 IH1 r2 IH2|p|p|n r IH|r IH| |];
    intros A pos rest cs k x H; simpl in H.
  - exists [], rest, cs. rewrite Nat.add_0_r. auto.
  - destruct rest as [|c rest]; [discriminate|].
    destruct (p c); [|discriminate].
    exists [c], rest, cs. simpl. rewrite Nat.add_1_r. auto.
  - destruct (IH1 _ _ _ _ _ _ H) as (u1 & t1 & c1 & -> & H1 & Hc1).
    destruct (IH2 _ _ _ _ _ _ H1) as (u2 & t2 & c2 & -> & H2 & Hc2).
    exists (u1 ++ u2), t2, c2. rewrite length_app, <- app_assoc, Nat.add_assoc.
    split; [reflexivity|]. split; [exact H2|]. simpl.
    intros Hg. apply andb_true_iff in Hg as [Hg1 Hg2].
    rewrite (Hc2 Hg2). exact (Hc1 Hg1).
  - simpl. destruct (match_re r1 A pos rest cs k) eqn:E.
    + injection H as <-.
      destruct (IH1 _ _ _ _ _ _ E) as (u & t & c & Hr & Hk & Hc).
      exists u, t, c. split; [exact Hr|]. split; [exact Hk|].
      intros Hg. apply andb_true_iff in Hg as [Hg _]. exact (Hc Hg).
    + destruct (IH2 _ _ _ _ _ _ H) as (u & t & c & Hr & Hk & Hc).
      exists u, t, c. split; [exact Hr|]. split; [exact Hk|].
      intros Hg. apply andb_true_iff in Hg as [_ Hg]. exact (Hc Hg).
  - destruct (greedy_rep_consumes _ _ _ _ _ _ H) as (u & t & Hr & _ & Hk).
    exists u, t, cs. auto.
  - destruct (lazy_rep_consumes _ _ _ _ _ _ H) as (u & t & Hr & _ & Hk).
    exists u, t, cs. auto.
  - destruct (IH _ _ _ _ _ _ H) as (u & t & c & Hr & Hk & _).
    exists u, t, ((n, take (pos + length u - pos) rest) :: c).
    split; [exact Hr|]. split; [exact Hk|]. simpl. discriminate.
  - destruct (match_re r caps pos rest cs (fun _ _ cs' => Some cs'))
      as [cs1|] eqn:E; [|discriminate].
    exists [], rest, cs1. rewrite Nat.add_0_r.
    split; [reflexivity|]. split; [exact H|]. simpl. intros Hg.
    destruct (IH _ _ _ _ _ _ E) as (u & t & c & _ & Hk & Hc).
    injection Hk as <-. exact (Hc Hg).
  - destruct (Nat.eqb pos 0); [|discriminate].
    exists [], rest, cs. rewrite Nat.add_0_r. auto.
  - destruct rest as [|c [|d rest]]; try discriminate.
    + exists [], [], cs. rewrite Nat.add_0_r. auto.
    + destruct (ch_eqb c nl); [|discriminate].
      exists [], [c], cs. rewrite Nat.add_0_r. auto.
Qed.

(** [(p+)] as group [n]: the capture is a non-empty run of [p]. *)
Lemma group_plus_consumes {A} n p (k : nat -> str -> caps -> option A) rest pos cs x :
  match_re (Group n (Plus p)) A pos rest cs k = Some x ->
  exists consumed rest',
    rest = consumed ++ rest' /\ consumed <> [] /\ forallb p consumed = true
    /\ k (pos + length consumed) rest' ((n, consumed) :: cs) = Some x.
Proof.
  simpl. destruct rest as [|c rest]; [discriminate|].
  destruct (p c) eqn:Hc; [|discriminate]. intros H.
  apply greedy_rep_consumes in H as (u & rest' & -> & Hu & Hk).
  exists (c :: u), rest'. simpl. rewrite Hc, Hu.
  split; [reflexivity|]. split; [discriminate|]. split; [reflexivity|].
  replace (pos + S (length u)) with (S pos + length u) by lia.
  rewrite <- Hk. do 3 f_equal.
  replace (S pos + length u - pos) with (S (length u)) by lia.
  rewrite firstn_cons, take_app_length. reflexivity.
Qed.

(** Every match reported by a search or by the rounds of [matches] is
    the result of one attempt of [match_at]. *)
Lemma search_from_match_at r rest :
  forall ma pos m,
    search_from r ma pos rest = Some m ->
    exists ma' pos' rest' pre,
      match_at r ma' pos' rest' = Some m /\ rest = pre ++ rest'.
Proof.
  induction rest as [|c rest IH]; intros ma pos m H; simpl in H.
  - destruct (match_at r ma pos []) eqn:E; [|discriminate].
    injection H as <-. exists ma, pos, [], []. auto.
  - destruct (match_at r ma pos (c :: rest)) eqn:E.
    + injection H as <-. exists ma, pos, (c :: rest), []. auto.
    + destruct (IH _ _ _ H) as (ma' & pos' & rest' & pre & Hm & ->).
      exists ma', pos', rest', (c :: pre). auto.
Qed.

Lemma matches_loop_match_at r s fuel :
  forall pos ma m,
    In m (matches_loop fuel r s pos ma) ->
    exists ma' pos' rest' pre,
      match_at r ma' pos' rest' = Some m /\ s = pre ++ rest'.
Proof.
  induction fuel as [|fuel IH]; intros pos ma m H; simpl in H; [contradiction|].
  destruct (search_from r ma pos (drop pos s)) as [m0|] eqn:E; [|contradiction].
  destruct H as [<-|H]; [|exact (IH _ _ _ H)].
  destruct (search_from_match_at _ _ _ _ _ E) as (ma' & pos' & rest' & pre & Hm & Hd).
  exists ma', pos', rest', (take pos s ++ pre). split; [exact Hm|].
  rewrite <- app_assoc, <- Hd. symmetry. apply take_drop.
Qed.

(** No attempt succeeds, no match is found. *)
Lemma search_from_none r rest :
  forall pos,
    (forall pos' pre rest', rest = pre ++ rest' -> match_at r false pos' rest' = None) ->
    search_from r false pos rest = None.
Proof.
  induction rest as [|c rest IH]; intros pos H; simpl.
  - rewrite (H pos [] [] eq_refl). reflexivity.
  - rewrite (H pos [] (c :: rest) eq_refl). apply IH.
    intros pos' pre rest' ->. apply (H pos' (c :: pre)). reflexivity.
Qed.

Lemma matches_none r s :
  (forall pos' pre rest', s = pre ++ rest' -> match_at r false pos' rest' = None) ->
  matches r s = [].
Proof.
  intros H. unfold matches.
  replace (2 * length s + 3) with (S (2 * length s + 2)) by lia.
  simpl. rewrite drop_0, (search_from_none _ _ _ H). reflexivity.
Qed.

End Consumed.

Section Captures.
Import Re.

Lemma seq_free_consumes {A} r1 r2 (k : nat -> str -> caps -> option A) rest pos cs x :
  group_free r1 = true ->
  match_re (Seq r1 r2) A pos rest cs k = Some x ->
  exists consumed rest',
    rest = consumed ++ rest'
    /\ match_re r2 A (pos + length consumed) rest' cs k = Some x.
Proof.
  intros Hg H. simpl in H.
  destruct (match_re_consumes _ _ _ _ _ _ _ H) as (u & t & c & Hr & Hk & Hc).
  rewrite (Hc Hg) in Hk. eauto.
Qed.

Lemma group_consumes {A} n r (k : nat -> str -> caps -> option A) rest pos cs x :
  group_free r = true ->
  match_re (Group n r) A pos rest cs k = Some x ->
  exists consumed rest',
    rest = consumed ++ rest'
    /\ k (pos + length consumed) rest' ((n, consumed) :: cs) = Some x.
Proof.
  intros Hg H. simpl in H.
  destruct (match_re_consumes _ _ _ _ _ _ _ H) as (u & t & c & -> & Hk & Hc).
  rewrite (Hc Hg) in Hk. exists u, t. split; [reflexivity|].
  rewrite <- Hk. do 3 f_equal.
  replace (pos + length u - pos) with (length u) by lia.
  symmetry. apply take_app_length.
Qed.

Lemma seq_group_plus_consumes {A} n p r2 (k : nat -> str -> caps -> option A)
    rest pos cs x :
  match_re (Seq (Group n (Plus p)) r2) A pos rest cs k = Some x ->
  exists consumed rest',
    rest = consumed ++ rest' /\ consumed <> [] /\ forallb p consumed = true
    /\ match_re r2 A (pos + length consumed) rest' ((n, consumed) :: cs) k = Some x.
Proof.
  intros H.
  change (match_re (Group n (Plus p)) A pos rest cs
            (fun pos' rest' cs' => match_re r2 A pos' rest' cs' k) = Some x) in H.
  exact (group_plus_consumes _ _ _ _ _ _ _ H).
Qed.

Lemma final_caps ma pos pos' cs m :
  (if ma && Nat.eqb pos' pos then None else Some (RMatch pos pos' cs)) = Some m ->
  m_caps m = cs.
Proof. destruct (ma && Nat.eqb pos' pos); [discriminate|]. intros [= <-]. reflexivity. Qed.

(** The type captured by the start pattern is a non-empty run of word
    characters. *)
Lemma match_at_entry_start_caps ma pos rest m :
  match_at entry_start_re ma pos rest = Some m ->
  exists t, m_caps m = [(1, t)] /\ t <> [] /\ forallb is_word t = true.
Proof.
  unfold match_at, entry_start_re. intros H.
  apply seq_free_consumes in H as (u1 & t1 & _ & H); [|reflexivity].
  apply seq_group_plus_consumes in H as (ty & t2 & _ & Hne & Hw & H).
  apply match_re_consumes in H as (u3 & t3 & c3 & _ & H & Hc).
  rewrite (Hc eq_refl) in H. apply final_caps in H. eauto.
Qed.

(** The key captured by the key pattern is a non-empty run of characters
    other than commas. *)
Lemma match_at_key_caps ma pos rest m :
  match_at key_re ma pos rest = Some m ->
  exists k, m_caps m = [(1, k)] /\ k <> [] /\ forallb (not_c ",") k = true.
Proof.
  unfold match_at, key_re. intros H.
  apply seq_free_consumes in H as (u1 & t1 & _ & H); [|reflexivity].
  apply group_plus_consumes in H as (k & t2 & _ & Hne & Hk & H).
  apply final_caps in H. eauto.
Qed.

(** A match of the field pattern captures a non-empty run of word
    characters as name, and the subject has an equals sign. *)
Lemma match_at_field_caps ma pos rest m :
  match_at field_re ma pos rest = Some m ->
  exists name value,
    m_caps m = [(2, value); (1, name)]
    /\ name <> [] /\ forallb is_word name = true
    /\ contains "=" rest = true.
Proof.
  unfold match_at, field_re. intros H.
  apply seq_group_plus_consumes in H as (name & t1 & -> & Hne & Hw & H).
  apply seq_free_consumes in H as (u2 & t2 & -> & H); [|reflexivity].
  assert (Heq : contains "=" t2 = true).
  { simpl in H. destruct t2 as [|c t2]; [discriminate|].
    unfold lit_c in H. destruct (ch_eqb c "=") eqn:Ec; [|discriminate].
    simpl. rewrite ch_eqb_sym, Ec. reflexivity. }
  apply seq_free_consumes in H as (u3 & t3 & _ & H); [|reflexivity].
  apply seq_free_consumes in H as (u4 & t4 & _ & H); [|reflexivity].
  simpl in H.
  change (match_re (Group 2 field_value_re) rmatch (pos + length name + length u2
            + length u3 + length u4) t4 [(1, name)]
            (fun pos' rest' cs' =>
               match_re (Ahead field_end_re) rmatch pos' rest' cs'
                 (fun pos'0 _ cs0 =>
                    if ma && Nat.eqb pos'0 pos then None
                    else Some (RMatch pos pos'0 cs0))) = Some m) in H.
  apply group_consumes in H as (value & t5 & _ & H); [|reflexivity].
  apply match_re_consumes in H as (u6 & t6 & c6 & _ & H & Hc).
  rewrite (Hc eq_refl) in H. apply final_caps in H.
  exists name, value. split; [exact H|]. split; [exact Hne|]. split; [exact Hw|].
  unfold contains. rewrite !existsb_app. unfold contains in Heq. rewrite Heq.
  rewrite !orb_true_r. reflexivity.
Qed.

End Captures.

(** ** Membership of a character *)

Lemma contains_true_iff x s : contains x s = true <-> In x s.
Proof.
  unfold contains. rewrite existsb_exists. split.
  - intros (c & Hc & E). apply ch_eqb_eq in E. subst. exact Hc.
  - intros H. exists x. split; [exact H | apply ch_eqb_refl].
Qed.

Lemma contains_false_iff x s : contains x s = false <-> ~ In x s.
Proof.
  rewrite <- contains_true_iff. destruct (contains x s); split; congruence.
Qed.

Lemma In_lstrip x s : In x (lstrip s) -> In x s.
Proof.
  induction s as [|c s IH]; simpl; [auto|].
  destruct (is_space c); [auto | simpl; auto].
Qed.

Lemma In_strip x s : In x (strip s) -> In x s.
Proof.
  unfold strip, rstrip. intros H.
  apply in_rev, In_lstrip, in_rev in H. apply In_lstrip, H.
Qed.

Lemma contains_strip x s : contains x s = false -> contains x (strip s) = false.
Proof. rewrite !contains_false_iff. intros H Hin. apply H, In_strip, Hin. Qed.

(** ** Lines the parser does not look at *)

Lemma step_strip st l : step st (strip l) = step st l.
Proof. unfold step. rewrite strip_idempotent. reflexivity. Qed.

Lemma run_accumulated lines st : run st (accumulated lines) = run st lines.
Proof.
  revert st. induction lines as [|l lines IH]; intros st; [reflexivity|].
  rewrite accumulated_cons. unfold accumulated at 1. cbn [map List.filter].
  destruct (skipped (strip l)) eqn:Hs; cbn [negb app].
  - simpl. rewrite (step_skipped _ _ Hs). apply IH.
  - simpl. rewrite step_strip. destruct (step st l); [apply IH | reflexivity].
Qed.

Lemma step_ignores st l :
  in_entry st = false -> contains "@" l = false -> step st l = Ok st.
Proof.
  intros Hin Hat. unfold step. rewrite Hin, (contains_strip _ _ Hat).
  destruct (skipped (strip l)); reflexivity.
Qed.

Lemma run_ignores lines st :
  in_entry st = false -> Forall (fun l => contains "@" l = false) lines ->
  run st lines = Ok st.
Proof.
  intros Hin Hall. induction Hall as [|l lines Hl _ IH]; [reflexivity|].
  simpl. rewrite (step_ignores _ _ Hin Hl). exact IH.
Qed.

Lemma step_appends st l st' :
  step st l = Ok st' ->
  exists new,
    entries st' = entries st ++ new
    /\ length new <= length (accumulated [l]).
Proof.
  unfold step, accumulated. cbn [map List.filter].
  destruct (skipped (strip l)); cbn [negb length].
  { intros [= <-]. exists []. rewrite app_nil_r. auto. }
  destruct (negb (in_entry st) && contains "@" (strip l)).
  { destruct (Re.search entry_start_re (strip l)) as [m|].
    - intros [= <-]. unfold start_entry.
      destruct (closes_on_start (strip l)); simpl.
      + eexists [_]. auto.
      + exists []. rewrite app_nil_r. auto.
    - intros [= <-]. exists []. rewrite app_nil_r. auto. }
  destruct (in_entry st).
  - unfold continue_entry. destruct (closes_entry (strip l)).
    + destruct (current_entry st); [|discriminate].
      intros [= <-]. simpl. eexists [_]. auto.
    + intros [= <-]. exists []. rewrite app_nil_r. auto.
  - intros [= <-]. exists []. rewrite app_nil_r. auto.
Qed.

Lemma run_appends lines :
  forall st st',
    run st lines = Ok st' ->
    exists new,
      entries st' = entries st ++ new
      /\ length new <= length (accumulated lines).
Proof.
  induction lines as [|l lines IH]; intros st st' H; simpl in H.
  - injection H as <-. exists []. rewrite app_nil_r. auto.
  - destruct (step st l) as [st1|] eqn:E; [|discriminate].
    destruct (step_appends _ _ _ E) as (n1 & H1 & L1).
    destruct (IH _ _ H) as (n2 & H2 & L2).
    exists (n1 ++ n2). rewrite H2, H1, <- app_assoc. split; [reflexivity|].
    rewrite accumulated_cons, !length_app. lia.
Qed.

Lemma step_same_progress earlier a b l :
  same_progress earlier a b -> same_outcome earlier (step a l) (step b l).
Proof.
  intros H. pose proof H as (He & Hi & Hc). unfold step.
  destruct (skipped (strip l)); [exact H|].
  rewrite Hi. destruct (in_entry b) eqn:Hb; simpl.
  - destruct (Hc eq_refl) as [Hcur Hcont]. unfold continue_entry.
    rewrite Hcur, Hcont, Hi, He.
    destruct (closes_entry (strip l)).
    + destruct (current_entry b); simpl; [|exact I].
      unfold same_progress; simpl. rewrite <- app_assoc. auto.
    + simpl. unfold same_progress; simpl. auto.
  - destruct (contains "@" (strip l)); [|exact H].
    destruct (Re.search entry_start_re (strip l)) as [m|]; [|exact H].
    simpl. unfold start_entry. rewrite He.
    destruct (closes_on_start (strip l)); unfold same_progress; simpl;
      rewrite <- ?app_assoc; auto.
Qed.

Lemma run_same_progress earlier lines :
  forall a b,
    same_progress earlier a b -> same_outcome earlier (run a lines) (run b lines).
Proof.
  induction lines as [|l lines IH]; intros a b H; simpl; [exact H|].
  pose proof (step_same_progress earlier a b l H) as Hs.
  destruct (step a l) as [a'|], (step b l) as [b'|]; simpl in Hs;
    try contradiction; [apply IH, Hs | exact I].
Qed.

(** X1: a document in which no line has an at-sign yields no entry,
    whatever else the lines contain. *)
Theorem X1_no_at_sign_no_entries (lines : list str) :
  Forall (fun l => contains "@" l = false) lines ->
  parse_bibtex_file lines = Ok [].
Proof.
  intros H. unfold parse_bibtex_file.
  rewrite (run_ignores lines init_state eq_refl H). reflexivity.
Qed.

Lemma X1_witness :
  parse_bibtex_file ["title = {No entry here}"; "}"; "  year = 2020 }"] = Ok [].
Proof.
  apply X1_no_at_sign_no_entries. repeat (constructor; [reflexivity|]). constructor.
Defined.

(** X2: the parser only sees the lines trimmed, and without the blank
    ones and those that start with a percent sign: parsing a document and
    parsing its trimmed, unskipped lines give the same result. *)
Theorem X2_parse_sees_accumulated_lines (lines : list str) :
  parse_bibtex_file (accumulated lines) = parse_bibtex_file lines.
Proof. unfold parse_bibtex_file. rewrite run_accumulated. reflexivity. Qed.

(** X3: later lines never remove or change an entry already found, and
    each line that is not skipped adds at most one entry. *)
Theorem X3_entries_only_appended (st st' : pstate) (lines : list str) :
  run st lines = Ok st' ->
  exists new,
    entries st' = entries st ++ new
    /\ length new <= length (accumulated lines).
Proof. apply run_appends. Qed.

Lemma X3_witness :
  exists new,
    [mkEntry "book" "b1}" ∅ ["@book{b1}"]; mkEntry "misc" "m}" ∅ ["@misc{m}"]]
    = [mkEntry "book" "b1}" ∅ ["@book{b1}"]] ++ new
    /\ length new <= 2.
Proof.
  apply (X3_entries_only_appended
           (mkState [mkEntry "book" "b1}" ∅ ["@book{b1}"]] None [] false)
           (mkState [mkEntry "book" "b1}" ∅ ["@book{b1}"];
                     mkEntry "misc" "m}" ∅ ["@misc{m}"]]
              (Some (mkEntry "misc" "m}" ∅ ["@misc{m}"])) ["@misc{m}"] false)
           ["% two lines"; "@misc{m}"; "stray text"]).
  vm_compute. reflexivity.
Defined.

Lemma parse_concat_outside (l1 l2 : list str) :
  ends_inside_entry l1 = false ->
  exists es1 es2,
    parse_bibtex_file l1 = Ok es1 /\ parse_bibtex_file l2 = Ok es2
    /\ parse_bibtex_file (l1 ++ l2) = Ok (es1 ++ es2).
Proof.
  unfold ends_inside_entry, parse_bibtex_file. intros Hend.
  destruct (run_total l1 init_state state_ok_init) as (st1 & H1 & _).
  rewrite run_app, H1 in *.
  assert (Hrel : same_progress (entries st1) st1 init_state).
  { unfold same_progress. simpl. rewrite app_nil_r.
    split; [reflexivity|]. split; [exact Hend | discriminate]. }
  pose proof (run_same_progress (entries st1) l2 st1 init_state Hrel) as Hout.
  destruct (run_total l2 init_state state_ok_init) as (st2 & H2 & _).
  rewrite H2 in *. destruct (run st1 l2) as [st12|]; [|contradiction].
  destruct Hout as (He & _). exists (entries st1), (entries st2).
  rewrite He. auto.
Qed.

(** X4: when a document does not stop inside an open entry, parsing it
    followed by more lines gives its entries followed by the entries of
    those lines. *)
Theorem X4_parse_concat (l1 l2 : list str) :
  ends_inside_entry l1 = false ->
  exists es1 es2,
    parse_bibtex_file l1 = Ok es1 /\ parse_bibtex_file l2 = Ok es2
    /\ parse_bibtex_file (l1 ++ l2) = Ok (es1 ++ es2).
Proof. apply parse_concat_outside. Qed.

Lemma X4_witness :
  parse_bibtex_file (["@book{b1}"; "@article{k1,"; "year = 2020 }"] ++ ["@misc{m}"])
  = Ok ([mkEntry "book" "b1}" ∅ ["@book{b1}"];
         mkEntry "article" "k1" {["year" := "2020"]} []]
        ++ [mkEntry "misc" "m}" ∅ ["@misc{m}"]]).
Proof.
  destruct (X4_parse_concat ["@book{b1}"; "@article{k1,"; "year = 2020 }"]
              ["@misc{m}"] eq_refl) as (es1 & es2 & H1 & H2 & H).
  rewrite H. vm_compute in H1, H2.
  injection H1 as <-. injection H2 as <-. reflexivity.
Defined.

(** Inside an open entry the following lines belong to it: the same two
    lines give no entry when the first document is cut there. *)
Example open_entry_swallows_lines :
  ends_inside_entry ["@article{k1,"] = true
  /\ parse_bibtex_file (["@article{k1,"] ++ ["@misc{m}"])
     = Ok [mkEntry "article" "k1" ∅ []]
  /\ parse_all [["@article{k1,"]; ["@misc{m}"]]
     = Ok [mkEntry "misc" "m}" ∅ ["@misc{m}"]].
Proof. repeat split; vm_compute; reflexivity. Qed.

(** ** Shape of the parsed entries *)

Lemma not_c_no_comma k : forallb (Re.not_c ",") k = true -> contains "," k = false.
Proof.
  induction k as [|c k IH]; intros H; [reflexivity|].
  simpl in *. apply andb_true_iff in H as [Hc H].
  unfold Re.not_c in Hc. apply negb_true_iff in Hc.
  rewrite ch_eqb_sym, Hc. exact (IH H).
Qed.

Lemma key_of_line_ok line :
  key_of_line line <> [] /\ contains "," (key_of_line line) = false.
Proof.
  unfold key_of_line, Re.search.
  destruct (Re.search_from key_re false 0 line) as [m|] eqn:E.
  - apply search_from_match_at in E as (ma & pos & rest & pre & Hm & _).
    apply match_at_key_caps in Hm as (k & Hcaps & Hne & Hk).
    unfold Re.group. rewrite Hcaps. simpl.
    split; [exact Hne | apply not_c_no_comma, Hk].
  - split; [discriminate | reflexivity].
Qed.

Lemma start_type_ok line m :
  Re.search entry_start_re line = Some m ->
  (exists t, t <> [] /\ forallb is_word t = true
             /\ lower (Re.group 1 m) = lower t)
  /\ lower (Re.group 1 m) <> [].
Proof.
  unfold Re.search. intros E.
  apply search_from_match_at in E as (ma & pos & rest & pre & Hm & _).
  apply match_at_entry_start_caps in Hm as (t & Hcaps & Hne & Hw).
  unfold Re.group. rewrite Hcaps. simpl.
  split; [exists t; auto|].
  destruct t; [congruence | discriminate].
Qed.

Lemma set_fields_ok e f : entry_ok e -> entry_ok (set_fields e f).
Proof. intros H. exact H. Qed.

Lemma step_entries_ok st l st' :
  state_entries_ok st -> step st l = Ok st' -> state_entries_ok st'.
Proof.
  intros [Hes Hcur]. unfold step.
  destruct (skipped (strip l)); [intros [= <-]; split; assumption|].
  destruct (in_entry st) eqn:Hin; simpl.
  - destruct (Hcur eq_refl) as (cur & Hc & Hok).
    unfold continue_entry. rewrite Hc.
    destruct (closes_entry (strip l)); intros [= <-]; split; simpl.
    + apply Forall_app. split; [exact Hes|].
      constructor; [exact Hok | constructor].
    + discriminate.
    + exact Hes.
    + intros _. eauto.
  - destruct (contains "@" (strip l)); [|intros [= <-]; split; [exact Hes|congruence]].
    destruct (Re.search entry_start_re (strip l)) as [m|] eqn:E;
      [|intros [= <-]; split; [exact Hes|congruence]].
    intros [= <-].
    assert (Hok : forall r, entry_ok (mkEntry (lower (Re.group 1 m))
                                        (key_of_line (strip l)) ∅ r)).
    { intros r. destruct (start_type_ok _ _ E) as (H1 & H2).
      destruct (key_of_line_ok (strip l)) as (H4 & H5).
      repeat split; assumption. }
    unfold start_entry. destruct (closes_on_start (strip l)); split; simpl.
    + apply Forall_app. split; [exact Hes|].
      constructor; [apply Hok | constructor].
    + discriminate.
    + exact Hes.
    + intros _. eexists. split; [reflexivity | apply Hok].
Qed.

Lemma run_entries_ok lines :
  forall st st', state_entries_ok st -> run st lines = Ok st' -> state_entries_ok st'.
Proof.
  induction lines as [|l lines IH]; intros st st' Hst H; simpl in H.
  - injection H as <-. exact Hst.
  - destruct (step st l) as [st1|] eqn:E; [|discriminate].
    exact (IH _ _ (step_entries_ok _ _ _ Hst E) H).
Qed.

(** X5: every entry that the parser returns has a non-empty type, which is
    what [lower] makes of a non-empty run of word characters, and a
    non-empty key without a comma. *)
Theorem X5_parsed_entries_have_type_and_key (lines : list str) :
  exists es, parse_bibtex_file lines = Ok es /\ Forall entry_ok es.
Proof.
  unfold parse_bibtex_file.
  destruct (run_total lines init_state state_ok_init) as (st & H & _).
  rewrite H. exists (entries st). split; [reflexivity|].
  apply (run_entries_ok lines init_state st); [|exact H].
  split; [constructor | discriminate].
Qed.

(** The key runs to the end of the line when no comma follows, closing
    brace included. *)
Example key_keeps_closing_brace :
  parse_bibtex_file ["@misc{m}"] = Ok [mkEntry "misc" "m}" ∅ ["@misc{m}"]].
Proof. reflexivity. Qed.

(** ** [parse_entry_fields] *)

Lemma join_split_char x s : join_char x (split_char x s) = s.
Proof.
  induction s as [|c s IH]; [reflexivity|].
  simpl. destruct (split_char x s) as [|w ws] eqn:E.
  - exfalso. exact (split_char_nonempty x s E).
  - destruct (ch_eqb c x) eqn:Ec.
    + apply ch_eqb_eq in Ec. subst c.
      change (join_char x ([] :: w :: ws)) with (x :: join_char x (w :: ws)).
      rewrite IH. reflexivity.
    + destruct ws as [|w' ws]; simpl in *; rewrite <- IH; reflexivity.
Qed.

Lemma In_drop_str (x : ascii) n (s : str) : In x (drop n s) -> In x s.
Proof.
  revert s. induction n as [|n IH]; intros s H; [exact H|].
  destruct s as [|c s]; [exact H|]. right. apply IH, H.
Qed.

(** The text searched for fields is a part of the entry text. *)
Lemma In_entry_body x entry_text : In x (entry_body entry_text) -> In x entry_text.
Proof.
  unfold entry_body. pose proof (join_split_char nl entry_text) as Hj.
  destruct (split_char nl entry_text) as [|w ws] eqn:E.
  - exfalso. exact (split_char_nonempty nl entry_text E).
  - destruct ws as [|w' ws].
    + simpl in *. subst w. apply In_drop_str.
    + change (1 <? length (w :: w' :: ws)) with true. cbn [tl].
      intros H. rewrite <- Hj.
      change (join_char nl (w :: w' :: ws))
        with (w ++ nl :: join_char nl (w' :: ws)).
      apply in_or_app. right. right. exact H.
Qed.

(** X6: an entry text without an equals sign has no field. *)
Theorem X6_no_equals_sign_no_field (entry_text : str) :
  contains "=" entry_text = false -> parse_entry_fields entry_text = ∅.
Proof.
  intros H. unfold parse_entry_fields, Re.findall2.
  rewrite matches_none; [reflexivity|].
  intros pos' pre rest' Hc.
  destruct (Re.match_at field_re false pos' rest') as [m|] eqn:E; [|reflexivity].
  exfalso. apply match_at_field_caps in E as (_ & _ & _ & _ & _ & Heq).
  apply contains_false_iff in H. apply H, In_entry_body.
  rewrite Hc. apply in_or_app. right. apply contains_true_iff, Heq.
Qed.

Lemma X6_witness : parse_entry_fields "@article{k1, a title, 2020}" = ∅.
Proof. apply X6_no_equals_sign_no_field. reflexivity. Defined.

Lemma clean_field_value_trimmed v : strip (clean_field_value v) = clean_field_value v.
Proof. unfold clean_field_value. apply strip_idempotent. Qed.

Lemma store_field_ok fields m :
  (forall name value, fields !! name = Some value -> field_ok name value) ->
  fst m <> [] -> forallb is_word (fst m) = true ->
  forall name value,
    store_field fields m !! name = Some value -> field_ok name value.
Proof.
  destruct m as [a b]. cbn [fst snd]. intros Hf Hne Hw name value.
  unfold store_field. cbn [fst snd].
  assert (Hl : forallb is_word (lower a) = true)
    by (rewrite forallb_word_lower; exact Hw).
  rewrite (strip_words _ Hl).
  destruct (decide (lower a = name)) as [<-|Hn].
  - rewrite lookup_insert_eq. intros [= <-]. split; [|split].
    + exists a. rewrite (strip_words _ Hl). auto.
    + destruct a; [congruence | discriminate].
    + apply clean_field_value_trimmed.
  - rewrite lookup_insert_ne by exact Hn. apply Hf.
Qed.

Lemma fold_store_field_ok ms :
  forall fields,
    (forall name value, fields !! name = Some value -> field_ok name value) ->
    Forall (fun m => fst m <> [] /\ forallb is_word (fst m) = true) ms ->
    forall name value,
      fold_left store_field ms fields !! name = Some value -> field_ok name value.
Proof.
  induction ms as [|m ms IH]; intros fields Hf Hms; [exact Hf|].
  inversion Hms as [|? ? [Hne Hw] Hrest]; subst. simpl.
  apply IH; [|exact Hrest]. apply store_field_ok; assumption.
Qed.

Lemma findall2_field_names content :
  Forall (fun m : str * str => fst m <> [] /\ forallb is_word (fst m) = true)
    (Re.findall2 field_re content).
Proof.
  unfold Re.findall2, Re.matches. apply List.Forall_forall. intros [a b] Hin.
  apply in_map_iff in Hin as (m & Heq & Hin).
  apply matches_loop_match_at in Hin as (ma & pos & rest & pre & Hm & _).
  apply match_at_field_caps in Hm as (name & value & Hcaps & Hne & Hw & _).
  unfold Re.group in Heq. rewrite Hcaps in Heq. simpl in Heq.
  injection Heq as <- <-. auto.
Qed.

(** X7: however irregular the entry text is, every field name stored by
    [parse_entry_fields] is what [lower] and then [strip] make of a
    non-empty run of word characters, it is not empty, and every stored
    value is trimmed. *)
Theorem X7_fields_are_well_formed (entry_text name value : str) :
  parse_entry_fields entry_text !! name = Some value -> field_ok name value.
Proof.
  unfold parse_entry_fields.
  apply fold_store_field_ok; [|apply findall2_field_names].
  intros n v H. rewrite lookup_empty in H. discriminate.
Qed.

Lemma X7_witness :
  field_ok "year" "2020".
Proof.
  apply (X7_fields_are_well_formed ("@article{k1," ++ [nl] ++ "  YEAR  =  2020  }")).
  vm_compute. reflexivity.
Defined.

(** ** More on the clean-up of values *)

Lemma strip_wrapped a s b :
  is_space a = false -> is_space b = false ->
  strip (a :: s ++ [b]) = a :: s ++ [b].
Proof.
  intros Ha Hb. apply strip_id; [exact Ha|].
  rewrite (app_comm_cons s [b] a), rev_app_distr. exact Hb.
Qed.

Lemma rstrip_char_snoc x s : rstrip_char x (s ++ [x]) = rstrip_char x s.
Proof.
  unfold rstrip_char. rewrite rev_app_distr. simpl. rewrite ch_eqb_refl.
  reflexivity.
Qed.

Lemma slice_wrapped a s b : slice_1_m1 (a :: s ++ [b]) = s.
Proof. unfold slice_1_m1. simpl. apply removelast_last. Qed.

Lemma endswith_wrapped x a s b : endswith x (a :: s ++ [b]) = ch_eqb b x.
Proof.
  unfold endswith. rewrite (app_comm_cons s [b] a), rev_app_distr. reflexivity.
Qed.

(** X8: a value wrapped in braces, or in double quotes, loses exactly one
    layer of wrapping, whatever whitespace surrounds it: when the inside
    is trimmed and has no trailing comma, the clean-up returns the inside
    as it is, inner braces included. *)
Theorem X8_clean_removes_one_layer (before inside after : str) :
  forallb is_space before = true -> forallb is_space after = true ->
  strip inside = inside -> endswith "," inside = false ->
  clean_field_value (before ++ "{" ++ inside ++ "}" ++ after) = inside
  /\ clean_field_value (before ++ [dquote] ++ inside ++ [dquote] ++ after) = inside.
Proof.
  intros Hb Ha Hs Hc.
  assert (Hstrip : forall a b, is_space a = false -> is_space b = false ->
            strip (before ++ a :: inside ++ b :: after) = a :: inside ++ [b]).
  { intros a b Ha' Hb'. rewrite strip_between by assumption.
    assert (H1 : lstrip before = []).
    { clear -Hb. induction before as [|c s IH]; [reflexivity|].
      simpl in *. apply andb_true_iff in Hb as [-> Hb]. exact (IH Hb). }
    assert (H2 : rstrip after = []).
    { unfold rstrip. assert (Hr : forallb is_space (rev after) = true).
      { rewrite forallb_forall in *. intros x Hx. apply Ha, in_rev, Hx. }
      clear -Hr. induction (rev after) as [|c s IH]; [reflexivity|].
      simpl in *. apply andb_true_iff in Hr as [-> Hr]. exact (IH Hr). }
    rewrite H1, H2. reflexivity. }
  split; unfold clean_field_value.
  - change (before ++ "{" ++ inside ++ "}" ++ after)
      with (before ++ "{"%char :: inside ++ "}"%char :: after).
    rewrite Hstrip by reflexivity.
    change (startswith "{" ("{"%char :: inside ++ ["}"%char])) with true.
    rewrite endswith_wrapped, ch_eqb_refl. cbn [andb].
    rewrite slice_wrapped, (rstrip_char_id _ _ Hc). exact Hs.
  - change (before ++ [dquote] ++ inside ++ [dquote] ++ after)
      with (before ++ dquote :: inside ++ dquote :: after).
    rewrite Hstrip by reflexivity.
    change (startswith "{" (dquote :: inside ++ [dquote])) with false.
    cbn [andb].
    change (startswith dquote (dquote :: inside ++ [dquote])) with true.
    rewrite endswith_wrapped, ch_eqb_refl. cbn [andb].
    rewrite slice_wrapped, (rstrip_char_id _ _ Hc). exact Hs.
Qed.

Lemma X8_witness :
  clean_field_value (" " ++ "{" ++ "The {UNIX} System" ++ "}" ++ "  ")
  = "The {UNIX} System".
Proof.
  apply (proj1 (X8_clean_removes_one_layer " " "The {UNIX} System" "  "
                  eq_refl eq_refl eq_refl eq_refl)).
Defined.

(** X9: the wrapping test comes before the removal of trailing commas,
    so a brace-wrapped value that is followed by a comma keeps its
    braces: only the commas go. *)
Theorem X9_comma_after_brace_keeps_braces (inside : str) :
  clean_field_value ("{" ++ inside ++ "},") = "{" ++ inside ++ "}".
Proof.
  assert (Hin : "{" ++ inside ++ "}," = "{"%char :: (inside ++ "}") ++ [","%char]).
  { simpl. rewrite <- app_assoc. reflexivity. }
  rewrite Hin. unfold clean_field_value.
  rewrite strip_wrapped by reflexivity.
  change (startswith "{" ("{"%char :: (inside ++ "}") ++ [","%char])) with true.
  change (startswith dquote ("{"%char :: (inside ++ "}") ++ [","%char])) with false.
  rewrite (endswith_wrapped "}"). cbn [andb].
  change (ch_eqb "," "}") with false. cbn iota.
  rewrite (app_comm_cons (inside ++ "}") [","%char] "{"%char).
  rewrite rstrip_char_snoc.
  change ("{" ++ inside ++ "}") with ("{"%char :: inside ++ ["}"%char]).
  rewrite rstrip_char_id by (rewrite endswith_wrapped; reflexivity).
  apply strip_wrapped; reflexivity.
Qed.

(** ** Replacing the runs of a character class *)

Section PlusFacts.
Import Re.
Variable p : ascii -> bool.

Lemma greedy_rep_final ma pos0 rest :
  forall pos, pos0 < pos ->
    exists e, greedy_rep p
                (fun pos' _ cs =>
                   if ma && Nat.eqb pos' pos0 then None
                   else Some (RMatch pos0 pos' cs)) pos rest []
              = Some (RMatch pos0 e []) /\ pos <= e <= pos + length rest.
Proof.
  induction rest as [|c rest IH]; intros pos Hlt; simpl.
  - replace (Nat.eqb pos pos0) with false by (symmetry; apply Nat.eqb_neq; lia).
    rewrite andb_false_r. exists pos. split; [reflexivity | lia].
  - destruct (p c).
    + destruct (IH (S pos)) as (e & -> & He); [lia|]. exists e. split; [reflexivity|lia].
    + replace (Nat.eqb pos pos0) with false by (symmetry; apply Nat.eqb_neq; lia).
      rewrite andb_false_r. exists pos. split; [reflexivity | lia].
Qed.

(** [p+] matches exactly where a character of the class stands. *)
Lemma match_at_Plus ma pos rest :
  match rest with
  | c :: rest' =>
      if p c
      then exists e, match_at (Plus p) ma pos rest = Some (RMatch pos e [])
                     /\ pos < e <= pos + length rest
      else match_at (Plus p) ma pos rest = None
  | [] => match_at (Plus p) ma pos rest = None
  end.
Proof.
  destruct rest as [|c rest]; [reflexivity|].
  unfold match_at. simpl. destruct (p c); [|reflexivity].
  destruct (greedy_rep_final ma pos rest (S pos)) as (e & H & He); [lia|].
  exists e. split; [exact H | lia].
Qed.

Lemma search_from_Plus rest :
  forall ma pos,
    match search_from (Plus p) ma pos rest with
    | Some m =>
        exists pre rest',
          rest = pre ++ rest' /\ forallb (fun c => negb (p c)) pre = true
          /\ m_start m = pos + length pre
          /\ m_start m < m_end m <= pos + length rest
    | None => forallb (fun c => negb (p c)) rest = true
    end.
Proof.
  induction rest as [|c rest IH]; intros ma pos.
  - reflexivity.
  - pose proof (match_at_Plus ma pos (c :: rest)) as Hm. simpl in Hm.
    cbn [search_from]. destruct (p c) eqn:Hc.
    + destruct Hm as (e & -> & He). exists [], (c :: rest).
      simpl. split; [reflexivity|]. split; [reflexivity|]. simpl in He. lia.
    + rewrite Hm. specialize (IH false (S pos)).
      destruct (search_from (Plus p) false (S pos) rest) as [m|].
      * destruct IH as (pre & rest' & -> & Hpre & Hs & He).
        exists (c :: pre), rest'. simpl. rewrite Hc, Hpre.
        split; [reflexivity|]. split; [reflexivity|]. lia.
      * simpl. rewrite Hc. exact IH.
Qed.

(** After [re.sub(p+, repl, s)], a character of the class can only come
    from the replacement. *)
Lemma sub_build_Plus repl s fuel :
  forall pos ma,
    pos <= length s -> rounds_left s pos ma < fuel ->
    forall c, In c (sub_build repl s pos (matches_loop fuel (Plus p) s pos ma)) ->
              p c = true -> In c repl.
Proof.
  induction fuel as [|fuel IH]; intros pos ma Hpos Hfuel c Hin Hc; [lia|].
  simpl in Hin. pose proof (search_from_Plus (drop pos s) ma pos) as Hs.
  destruct (search_from (Plus p) ma pos (drop pos s)) as [m|].
  - destruct Hs as (pre & rest' & Hd & Hpre & Hst & He).
    rewrite length_drop in He. simpl in Hin.
    apply in_app_or in Hin as [Hin|Hin].
    + exfalso. rewrite Hd, Hst in Hin.
      replace (pos + length pre - pos) with (length pre) in Hin by lia.
      rewrite take_app_length in Hin.
      rewrite forallb_forall in Hpre. apply Hpre in Hin.
      rewrite Hc in Hin. discriminate.
    + apply in_app_or in Hin as [Hin|Hin]; [exact Hin|].
      apply (IH (m_end m) (Nat.eqb (m_end m) (m_start m))); try assumption; [lia|].
      unfold rounds_left in *.
      destruct (Nat.eqb (m_end m) (m_start m)), ma; lia.
  - simpl in Hin. exfalso. rewrite forallb_forall in Hs. apply Hs in Hin.
    rewrite Hc in Hin. discriminate.
Qed.

Lemma sub_Plus repl s c :
  In c (sub (Plus p) repl s) -> p c = true -> In c repl.
Proof.
  unfold sub, matches. apply sub_build_Plus; unfold rounds_left; lia.
Qed.

End PlusFacts.

(** ** [extract_authors] *)

Lemma In_remove_char x y s : In y (remove_char x s) <-> In y s /\ y <> x.
Proof.
  unfold remove_char. rewrite filter_In, negb_true_iff. split.
  - intros [H E]. split; [exact H|]. intros ->. rewrite ch_eqb_refl in E. discriminate.
  - intros [H E]. split; [exact H|].
    destruct (ch_eqb y x) eqn:Ey; [|reflexivity]. apply ch_eqb_eq in Ey. congruence.
Qed.

Lemma In_remove_braces y s :
  In y (remove_braces s)
  <-> In y s /\ y <> "{"%char /\ y <> "}"%char.
Proof. unfold remove_braces. rewrite !In_remove_char. tauto. Qed.

Lemma remove_braces_no_brace s :
  contains "{" (remove_braces s) = false /\ contains "}" (remove_braces s) = false.
Proof.
  rewrite !contains_false_iff. split; intros H; apply In_remove_braces in H; tauto.
Qed.

Lemma clean_author_ok cleaned author :
  Forall author_ok cleaned -> Forall author_ok (clean_author cleaned author).
Proof.
  intros H. unfold clean_author.
  destruct (truthy _) eqn:Ht; [|exact H].
  apply Forall_app. split; [exact H|]. constructor; [|constructor].
  destruct (remove_braces_no_brace (Re.sub spaces_re " " (strip author))) as [H1 H2].
  repeat split; try assumption.
  - intros E. rewrite E in Ht. discriminate.
  - intros c Hin Hc. apply In_remove_braces in Hin as [Hin _].
    apply (sub_Plus is_space) in Hin; [|exact Hc].
    destruct Hin as [<-|[]]. reflexivity.
Qed.

Lemma fold_clean_author_ok authors :
  forall cleaned,
    Forall author_ok cleaned -> Forall author_ok (fold_left clean_author authors cleaned).
Proof.
  induction authors as [|a authors IH]; intros cleaned H; [exact H|].
  simpl. apply IH, clean_author_ok, H.
Qed.

Lemma extract_authors_ok author_field :
  Forall author_ok (extract_authors author_field).
Proof.
  unfold extract_authors. destruct (negb (truthy author_field)); [constructor|].
  apply fold_clean_author_ok. constructor.
Qed.

(** X10: every name returned by [extract_authors] is non-empty, has no
    brace, and has no whitespace character other than the plain space
    (tabs and line breaks inside a name are replaced). *)
Theorem X10_authors_are_clean (author_field : str) :
  Forall author_ok (extract_authors author_field).
Proof. apply extract_authors_ok. Qed.

(** *** Splitting on the word "and" *)

Section AndFacts.
Import Re ReFacts.

Lemma match_at_and_miss pos rest :
  match rest with [] => true | c :: _ => negb (is_space c) end = true ->
  match_at and_re false pos rest = None.
Proof.
  destruct rest as [|c rest]; [reflexivity|].
  intros H. apply negb_true_iff in H. unfold match_at. simpl. rewrite H. reflexivity.
Qed.

Lemma search_and_skip pre rest :
  no_space pre = true ->
  forall pos,
    search_from and_re false pos (pre ++ rest)
    = search_from and_re false (pos + length pre) rest.
Proof.
  induction pre as [|c pre IH]; intros H pos.
  - simpl. rewrite Nat.add_0_r. reflexivity.
  - simpl in H. apply andb_true_iff in H as [Hc H].
    change ((c :: pre) ++ rest) with (c :: (pre ++ rest)).
    rewrite search_from_miss by (apply match_at_and_miss; exact Hc).
    rewrite (IH H). f_equal. simpl. lia.
Qed.

Lemma search_and_none s pos :
  no_space s = true -> search_from and_re false pos s = None.
Proof.
  revert pos. induction s as [|c s IH]; intros pos H; [reflexivity|].
  simpl in H. apply andb_true_iff in H as [Hc H].
  rewrite search_from_miss by (apply match_at_and_miss; exact Hc).
  apply IH, H.
Qed.

Lemma match_at_and_sep sep rest pos :
  is_and_sep sep = true ->
  match_at and_re false pos (sep ++ rest) = Some (RMatch pos (pos + 5) [])
  /\ length sep = 5.
Proof.
  destruct sep as [|w1 [|a [|n [|d [|w2 [|]]]]]]; try discriminate.
  simpl. intros H.
  repeat (apply andb_true_iff in H as [H ?]).
  unfold match_at. simpl. unfold lit_ci.
  rewrite H.
  change (lower_char "a") with "a"%char. change (lower_char "n") with "n"%char.
  change (lower_char "d") with "d"%char.
  rewrite H2, H1, H0, H3. split; [|reflexivity].
  replace (pos + 5) with (S (S (S (S (S pos))))) by lia. reflexivity.
Qed.

Lemma matches_loop_and more :
  forall done first fuel,
    no_space first = true ->
    Forall (fun sn => is_and_sep (fst sn) = true /\ no_space (snd sn) = true) more ->
    length more < fuel ->
    split_build (done ++ author_text first more) (length done)
      (matches_loop fuel and_re (done ++ author_text first more) (length done) false)
    = first :: map snd more.
Proof.
  induction more as [|[sep name] more IH]; intros done first fuel Hf Hm Hfuel;
    (destruct fuel as [|fuel]; [simpl in Hfuel; lia|]).
  - simpl. rewrite drop_app_length, (search_and_none _ _ Hf). simpl.
    rewrite drop_app_length. reflexivity.
  - inversion Hm as [|? ? [Hsep Hname] Hmore]; subst. simpl in Hsep, Hname.
    cbn [author_text matches_loop].
    rewrite drop_app_length, (search_and_skip _ _ Hf).
    destruct (match_at_and_sep sep (author_text name more) (length done + length first) Hsep)
      as [Hmatch Hlen].
    rewrite (search_from_hit _ _ _ _ Hmatch). cbn [m_end m_start split_build map snd].
    replace (Nat.eqb (length done + length first + 5) (length done + length first))
      with false by (symmetry; apply Nat.eqb_neq; lia).
    f_equal.
    + rewrite drop_app_length.
      replace (length done + length first - length done) with (length first) by lia.
      apply take_app_length.
    + replace (done ++ first ++ sep ++ author_text name more)
        with ((done ++ first ++ sep) ++ author_text name more)
        by (rewrite <- !app_assoc; reflexivity).
      replace (length done + length first + 5) with (length (done ++ first ++ sep))
        by (rewrite !length_app, Hlen; lia).
      apply IH; [exact Hname | exact Hmore | simpl in Hfuel; lia].
Qed.

Lemma split_and first more :
  no_space first = true ->
  Forall (fun sn => is_and_sep (fst sn) = true /\ no_space (snd sn) = true) more ->
  split and_re (author_text first more) = first :: map snd more.
Proof.
  intros Hf Hm. unfold split, matches.
  apply (matches_loop_and more [] first); [exact Hf | exact Hm|].
  assert (H : forall m f,
            Forall (fun sn => is_and_sep (fst sn) = true /\ no_space (snd sn) = true) m ->
            length m <= length (author_text f m)).
  { induction m as [|[s n] m IHm]; intros f Hall; simpl; [lia|].
    inversion Hall as [|? ? [Hs _] Hrest]; subst. simpl in Hs.
    destruct (match_at_and_sep s [] 0 Hs) as [_ Hlen].
    rewrite !length_app, Hlen. specialize (IHm n Hrest). lia. }
  specialize (H more first Hm). lia.
Qed.

Lemma no_space_strip s : no_space s = true -> strip s = s.
Proof.
  intros H. apply strip_id.
  - destruct s as [|c s]; [reflexivity|]. simpl in *.
    apply andb_true_iff in H as [H _]. apply negb_true_iff, H.
  - assert (Hr : no_space (rev s) = true).
    { unfold no_space in *. rewrite forallb_forall in *.
      intros x Hx. apply H, in_rev, Hx. }
    destruct (rev s) as [|c r]; [reflexivity|]. simpl in *.
    apply andb_true_iff in Hr as [Hr _]. apply negb_true_iff, Hr.
Qed.

Lemma no_space_sub_spaces s : no_space s = true -> sub spaces_re " " s = s.
Proof.
  intros H. unfold sub. rewrite matches_none; [reflexivity|].
  intros pos' pre rest' ->. unfold no_space in H. rewrite forallb_app in H.
  apply andb_true_iff in H as [_ H].
  pose proof (match_at_Plus is_space false pos' rest') as Hm.
  destruct rest' as [|c rest']; [exact Hm|].
  simpl in H. apply andb_true_iff in H as [Hc _]. apply negb_true_iff in Hc.
  rewrite Hc in Hm. exact Hm.
Qed.

Lemma fold_clean_author_no_space names :
  forall cleaned,
    Forall (fun n => no_space n = true) names ->
    fold_left clean_author names cleaned
    = cleaned ++ List.filter truthy (map remove_braces names).
Proof.
  induction names as [|n names IH]; intros cleaned H; simpl.
  - rewrite app_nil_r. reflexivity.
  - inversion H as [|? ? Hn Hrest]; subst. rewrite (IH _ Hrest).
    unfold clean_author. rewrite (no_space_strip _ Hn), (no_space_sub_spaces _ Hn).
    destruct (truthy (remove_braces n)); [|reflexivity].
    rewrite <- app_assoc. reflexivity.
Qed.

End AndFacts.

(** X11: an author field made of names without whitespace, separated by
    the word "and" in any letter case between two whitespace characters
    (line breaks included), is split into exactly those names, in order,
    each without its braces; a name made of braces only is dropped. *)
Theorem X11_authors_split_on_and (first : str) (more : list (str * str)) :
  no_space first = true ->
  Forall (fun sn => is_and_sep (fst sn) = true /\ no_space (snd sn) = true) more ->
  extract_authors (author_text first more)
  = List.filter truthy (map remove_braces (first :: map snd more)).
Proof.
  intros Hf Hm. unfold extract_authors.
  destruct (truthy (author_text first more)) eqn:Ht; cbn [negb].
  - rewrite (split_and first more Hf Hm).
    apply (fold_clean_author_no_space (first :: map snd more) []).
    constructor; [exact Hf|]. clear -Hm.
    induction Hm as [|[s n] m [_ Hn] _ IH]; simpl; constructor; assumption.
  - destruct more as [|[s n] more]; simpl in Ht.
    + destruct first; [reflexivity | discriminate].
    + inversion Hm as [|? ? [Hs _] _]; subst. simpl in Hs.
      destruct first; [|discriminate]. destruct s; discriminate.
Qed.

Lemma X11_witness :
  extract_authors
    (author_text "{Knuth}" [(" and ", "Lamport"); ([nl] ++ "AND ", "{}"); (" And" ++ [nl], "Anderson")])
  = ["Knuth"; "Lamport"; "Anderson"].
Proof.
  rewrite X11_authors_split_on_and; [reflexivity | reflexivity |].
  repeat (constructor; [split; reflexivity|]). constructor.
Defined.

(** ** Venue names and year labels *)

Section VenueShape.
Import Re ReFacts.

Lemma match_at_anchored_nonempty p r1 r2 s m :
  match_at (Seq Bol (Seq (Seq (Chr p) r1) r2)) false 0 s = Some m ->
  exists e cs, m = RMatch 0 (S e) cs.
Proof.
  unfold match_at. simpl. destruct s as [|c s]; [discriminate|].
  destruct (p c); [|discriminate]. intros H.
  apply match_re_advances in H as (p1 & t1 & c1 & H & Hle1 & _).
  apply match_re_advances in H as (p2 & t2 & c2 & H & Hle2 & _).
  injection H as <-. destruct p2 as [|e]; [lia|]. eauto.
Qed.

Lemma sub_anchored_is_drop p r1 r2 s :
  exists n, sub (Seq Bol (Seq (Seq (Chr p) r1) r2)) "" s = drop n s.
Proof.
  destruct (match_at (Seq Bol (Seq (Seq (Chr p) r1) r2)) false 0 s) as [m|] eqn:E.
  - destruct (match_at_anchored_nonempty _ _ _ _ _ E) as (e & cs & ->).
    exists (S e). apply sub_anchored_hit with (cs := cs). exact E.
  - exists 0. rewrite (sub_anchored_miss _ _ E). reflexivity.
Qed.

Lemma clean_conference_is_drop v :
  exists n, clean_conference v = drop n (remove_braces v).
Proof. unfold clean_conference. apply sub_anchored_is_drop. Qed.

Lemma clean_journal_is_drop v :
  exists n, clean_journal v = drop n (remove_braces v).
Proof.
  unfold clean_journal.
  destruct (sub_anchored_is_drop (lit_ci "p") (LitCI "roceedings of")
              (Star is_space) (remove_braces v)) as [n1 H1].
  change (Seq Bol (Seq (Seq (Chr (lit_ci "p")) (LitCI "roceedings of")) (Star is_space)))
    with proceedings_re in H1.
  rewrite H1.
  destruct (sub_anchored_is_drop (lit_ci "t") (LitCI "he") (Plus is_space)
              (drop n1 (remove_braces v))) as [n2 H2].
  change (Seq Bol (Seq (Seq (Chr (lit_ci "t")) (LitCI "he")) (Plus is_space)))
    with the_re in H2.
  rewrite H2, drop_drop. eauto.
Qed.

End VenueShape.

Lemma venue_ok_strip_drop n v : venue_ok (strip (drop n (remove_braces v))).
Proof.
  split; [apply strip_idempotent|].
  rewrite !contains_false_iff.
  split; intros H; apply In_strip, In_drop_str, In_remove_braces in H; tauto.
Qed.

Lemma venue_ok_nil : venue_ok [].
Proof. repeat split. Qed.

Lemma extract_venue_info_ok (entry : Entry) :
  venue_ok (fst (extract_venue_info entry))
  /\ venue_ok (snd (extract_venue_info entry)).
Proof.
  rewrite extract_venue_info_eq. cbn [fst snd]. split.
  - destruct (journal_field entry) as [|c s] eqn:E; [apply venue_ok_nil|].
    cbn [truthy]. destruct (clean_journal_is_drop (c :: s)) as [n ->].
    apply venue_ok_strip_drop.
  - destruct (conference_field entry) as [|c s] eqn:E; [apply venue_ok_nil|].
    cbn [truthy]. destruct (clean_conference_is_drop (c :: s)) as [n ->].
    apply venue_ok_strip_drop.
Qed.

(** X12: both names returned by [extract_venue_info] are trimmed and
    free of braces, whatever the fields of the entry hold. *)
Theorem X12_venue_names_are_clean (entry : Entry) :
  venue_ok (fst (extract_venue_info entry))
  /\ venue_ok (snd (extract_venue_info entry)).
Proof. apply extract_venue_info_ok. Qed.

Section YearShape.
Import Re.

Lemma search_from_position r rest :
  forall ma pos m,
    search_from r ma pos rest = Some m ->
    exists ma' pre rest',
      rest = pre ++ rest' /\ match_at r ma' (pos + length pre) rest' = Some m.
Proof.
  induction rest as [|c rest IH]; intros ma pos m H; simpl in H.
  - destruct (match_at r ma pos []) eqn:E; [|discriminate].
    injection H as <-. exists ma, [], []. rewrite Nat.add_0_r. auto.
  - destruct (match_at r ma pos (c :: rest)) eqn:E.
    + injection H as <-. exists ma, [], (c :: rest). rewrite Nat.add_0_r. auto.
    + destruct (IH _ _ _ H) as (ma' & pre & rest' & -> & Hm).
      exists ma', (c :: pre), rest'. split; [reflexivity|].
      rewrite <- Hm. f_equal. simpl. lia.
Qed.

Lemma match_at_year_any ma pos rest m :
  match_at year_re ma pos rest = Some m ->
  m = RMatch pos (pos + 4) [] /\ four_digits_at rest = true.
Proof.
  unfold match_at, four_digits_at.
  destruct rest as [|a [|b [|c [|d rest]]]]; cbn -[Nat.eqb];
    repeat match goal with
           | |- context [is_digit ?x] => destruct (is_digit x); cbn -[Nat.eqb]
           end;
    try discriminate.
  replace (Nat.eqb (S (S (S (S pos)))) pos) with false
    by (symmetry; apply Nat.eqb_neq; lia).
  rewrite andb_false_r. intros [= <-]. split; [|reflexivity].
  f_equal. lia.
Qed.

End YearShape.

Lemma year_label_shape (year y : str) :
  year_label year = Some y ->
  length y = 4 /\ forallb is_digit y = true
  /\ exists before after, year = before ++ y ++ after.
Proof.
  unfold year_label, Re.search. destruct (truthy year); [|discriminate].
  destruct (Re.search_from year_re false 0 year) as [m|] eqn:E; [|discriminate].
  apply search_from_position in E as (ma & pre & rest & -> & Hm).
  apply match_at_year_any in Hm as [-> H4]. simpl.
  intros [= <-].
  replace (length pre + 4 - length pre) with 4 by lia.
  rewrite drop_app_length.
  unfold four_digits_at in H4. apply andb_true_iff in H4 as [Hlen Hd].
  apply Nat.eqb_eq in Hlen.
  split; [exact Hlen|]. split; [exact Hd|].
  exists pre, (drop 4 rest). rewrite take_drop. reflexivity.
Qed.

(** X13: a year label is always four decimal digits, and it stands in the
    raw value: nothing else is ever counted in the year table. *)
Theorem X13_year_label_is_four_digits (year y : str) :
  year_label year = Some y ->
  length y = 4 /\ forallb is_digit y = true
  /\ exists before after, year = before ++ y ++ after.
Proof. apply year_label_shape. Qed.

Lemma X13_witness :
  length "1999" = 4 /\ forallb is_digit "1999" = true
  /\ exists before after, "c. 1999/2000" = before ++ "1999" ++ after.
Proof. apply X13_year_label_is_four_digits. reflexivity. Defined.

(** ** What the tables count *)

Lemma count_entry_tables s e :
  entry_types (count_entry s e) = incr_all (type_labels e) (entry_types s)
  /\ authors (count_entry s e) = incr_all (author_labels e) (authors s)
  /\ journals (count_entry s e) = incr_all (journal_labels e) (journals s)
  /\ conferences (count_entry s e) = incr_all (conference_labels e) (conferences s)
  /\ years (count_entry s e) = incr_all (year_labels e) (years s).
Proof.
  unfold count_entry, journal_labels, conference_labels, year_labels,
    author_labels, type_labels, incr_all.
  destruct (extract_venue_info e) as [journal conference]. cbn [fst snd].
  cbn [entry_types authors journals conferences years].
  repeat split.
  - destruct (truthy (get (fields e) "author")) eqn:E; [reflexivity|].
    unfold extract_authors. rewrite E. reflexivity.
  - destruct (truthy journal); reflexivity.
  - destruct (truthy conference); reflexivity.
  - destruct (year_label _); reflexivity.
Qed.

Lemma incr_all_app l1 l2 c : incr_all (l1 ++ l2) c = incr_all l2 (incr_all l1 c).
Proof. unfold incr_all. apply fold_left_app. Qed.

Lemma fold_count_entry_tables es :
  forall s,
    let s' := fold_left count_entry es s in
    entry_types s' = incr_all (flat_map type_labels es) (entry_types s)
    /\ authors s' = incr_all (flat_map author_labels es) (authors s)
    /\ journals s' = incr_all (flat_map journal_labels es) (journals s)
    /\ conferences s' = incr_all (flat_map conference_labels es) (conferences s)
    /\ years s' = incr_all (flat_map year_labels es) (years s).
Proof.
  induction es as [|e es IH]; intros s; [repeat split|].
  cbn [fold_left flat_map]. cbv zeta.
  destruct (IH (count_entry s e)) as (H1 & H2 & H3 & H4 & H5).
  destruct (count_entry_tables s e) as (E1 & E2 & E3 & E4 & E5).
  rewrite H1, H2, H3, H4, H5, E1, E2, E3, E4, E5, !incr_all_app.
  repeat split.
Qed.

Lemma count_of_incr k c k' :
  count_of (incr k c) k' = count_of c k' + (if bool_decide (k = k') then 1 else 0).
Proof.
  unfold count_of, incr. destruct (decide (k = k')) as [<-|Hne].
  - rewrite lookup_insert_eq, bool_decide_eq_true_2 by reflexivity. reflexivity.
  - rewrite lookup_insert_ne, bool_decide_eq_false_2 by exact Hne. simpl. lia.
Qed.

Lemma count_of_incr_all l :
  forall c k, count_of (incr_all l c) k = count_of c k + occurrences k l.
Proof.
  induction l as [|x l IH]; intros c k; simpl; [unfold occurrences; simpl; lia|].
  change (incr_all (x :: l) c) with (incr_all l (incr x c)).
  rewrite IH, count_of_incr. unfold occurrences. simpl.
  destruct (bool_decide (x = k)); simpl; lia.
Qed.

Lemma table_sum_incr_all l :
  forall c, table_sum (incr_all l c) = length l + table_sum c.
Proof.
  induction l as [|x l IH]; intros c; [reflexivity|].
  change (incr_all (x :: l) c) with (incr_all l (incr x c)).
  rewrite IH, table_sum_incr. simpl. lia.
Qed.

Lemma occurrences_app k l1 l2 :
  occurrences k (l1 ++ l2) = occurrences k l1 + occurrences k l2.
Proof. unfold occurrences. rewrite List.filter_app, length_app. reflexivity. Qed.

Lemma calculate_statistics_tables es :
  let s := calculate_statistics es in
  total_entries s = length es
  /\ entry_types s = incr_all (flat_map type_labels es) ∅
  /\ authors s = incr_all (flat_map author_labels es) ∅
  /\ journals s = incr_all (flat_map journal_labels es) ∅
  /\ conferences s = incr_all (flat_map conference_labels es) ∅
  /\ years s = incr_all (flat_map year_labels es) ∅.
Proof.
  unfold calculate_statistics. split; [apply fold_count_total|].
  apply (fold_count_entry_tables es).
Qed.

Lemma count_of_empty k : count_of ∅ k = 0.
Proof. unfold count_of. rewrite lookup_empty. reflexivity. Qed.

Lemma table_counts es k :
  let s := calculate_statistics es in
  count_of (entry_types s) k = occurrences k (flat_map type_labels es)
  /\ count_of (authors s) k = occurrences k (flat_map author_labels es)
  /\ count_of (journals s) k = occurrences k (flat_map journal_labels es)
  /\ count_of (conferences s) k = occurrences k (flat_map conference_labels es)
  /\ count_of (years s) k = occurrences k (flat_map year_labels es).
Proof.
  intros s. destruct (calculate_statistics_tables es) as (_ & H1 & H2 & H3 & H4 & H5).
  fold s in H1, H2, H3, H4, H5.
  rewrite H1, H2, H3, H4, H5, !count_of_incr_all, !count_of_empty.
  repeat split.
Qed.

Lemma flat_map_type_labels es : flat_map type_labels es = map entry_type es.
Proof. induction es as [|e es IH]; [reflexivity|]. simpl. rewrite IH. reflexivity. Qed.

(** X14: each table counts occurrences.  The count of a type is the
    number of entries of that type; the count of an author is the number
    of times the name is extracted from the author fields; the count of a
    journal, conference or year label is the number of entries whose
    cleaned journal, conference or year is that label.  A label that
    never occurs reads as 0. *)
Theorem X14_tables_count_occurrences (es : list Entry) (k : str) :
  let s := calculate_statistics es in
  count_of (entry_types s) k = occurrences k (map entry_type es)
  /\ count_of (authors s) k = occurrences k (flat_map author_labels es)
  /\ count_of (journals s) k = occurrences k (flat_map journal_labels es)
  /\ count_of (conferences s) k = occurrences k (flat_map conference_labels es)
  /\ count_of (years s) k = occurrences k (flat_map year_labels es).
Proof.
  intros s. rewrite <- flat_map_type_labels. apply table_counts.
Qed.

(** X15: statistics add up.  For the entries of two documents put
    together, the entry count and every count of every table is the sum
    of the counts obtained for each document alone. *)
Theorem X15_statistics_of_concatenation (es1 es2 : list Entry) (k : str) :
  let s := calculate_statistics (es1 ++ es2) in
  let s1 := calculate_statistics es1 in
  let s2 := calculate_statistics es2 in
  total_entries s = total_entries s1 + total_entries s2
  /\ count_of (entry_types s) k = count_of (entry_types s1) k + count_of (entry_types s2) k
  /\ count_of (authors s) k = count_of (authors s1) k + count_of (authors s2) k
  /\ count_of (journals s) k = count_of (journals s1) k + count_of (journals s2) k
  /\ count_of (conferences s) k
     = count_of (conferences s1) k + count_of (conferences s2) k
  /\ count_of (years s) k = count_of (years s1) k + count_of (years s2) k.
Proof.
  intros s s1 s2. subst s s1 s2.
  destruct (calculate_statistics_tables (es1 ++ es2)) as (T & _).
  destruct (calculate_statistics_tables es1) as (T1 & _).
  destruct (calculate_statistics_tables es2) as (T2 & _).
  destruct (table_counts (es1 ++ es2) k) as (A1 & A2 & A3 & A4 & A5).
  destruct (table_counts es1 k) as (B1 & B2 & B3 & B4 & B5).
  destruct (table_counts es2 k) as (C1 & C2 & C3 & C4 & C5).
  rewrite T, T1, T2, A1, A2, A3, A4, A5, B1, B2, B3, B4, B5, C1, C2, C3, C4, C5.
  rewrite !flat_map_app, !occurrences_app, length_app. repeat split.
Qed.

(** Two tables with positive counts that read the same everywhere are
    the same table. *)
Lemma positive_tables_eq (c1 c2 : gmap str nat) :
  positive_counts c1 -> positive_counts c2 ->
  (forall k, count_of c1 k = count_of c2 k) -> c1 = c2.
Proof.
  intros P1 P2 H. apply map_eq. intros k. specialize (H k). unfold count_of in H.
  destruct (c1 !! k) as [n1|] eqn:E1, (c2 !! k) as [n2|] eqn:E2; simpl in H.
  - congruence.
  - apply P1 in E1. lia.
  - apply P2 in E2. lia.
  - reflexivity.
Qed.

Lemma occurrences_perm k l1 l2 : Permutation l1 l2 -> occurrences k l1 = occurrences k l2.
Proof.
  intros H. unfold occurrences. induction H; simpl.
  - reflexivity.
  - destruct (bool_decide (x = k)); simpl; congruence.
  - destruct (bool_decide (x = k)), (bool_decide (y = k)); reflexivity.
  - congruence.
Qed.

Lemma flat_map_perm {A B} (f : A -> list B) l1 l2 :
  Permutation l1 l2 -> Permutation (flat_map f l1) (flat_map f l2).
Proof.
  intros H. induction H; simpl.
  - constructor.
  - apply Permutation_app_head, IHPermutation.
  - rewrite !app_assoc. apply Permutation_app_tail, Permutation_app_comm.
  - etransitivity; eassumption.
Qed.

Lemma stats_eq s1 s2 :
  total_entries s1 = total_entries s2 -> entry_types s1 = entry_types s2 ->
  authors s1 = authors s2 -> journals s1 = journals s2 ->
  conferences s1 = conferences s2 -> years s1 = years s2 -> s1 = s2.
Proof. destruct s1, s2. simpl. intros. subst. reflexivity. Qed.

Lemma calculate_statistics_positive es : all_positive (calculate_statistics es).
Proof.
  apply fold_count_positive. repeat split; apply positive_counts_empty.
Qed.

Lemma calculate_statistics_perm es1 es2 :
  Permutation es1 es2 -> calculate_statistics es1 = calculate_statistics es2.
Proof.
  intros H.
  destruct (calculate_statistics_positive es1) as (P1 & P2 & P3 & P4 & P5).
  destruct (calculate_statistics_positive es2) as (Q1 & Q2 & Q3 & Q4 & Q5).
  apply stats_eq.
  - destruct (calculate_statistics_tables es1) as (-> & _).
    destruct (calculate_statistics_tables es2) as (-> & _).
    apply Permutation_length, H.
  - apply positive_tables_eq; try assumption. intros k.
    destruct (table_counts es1 k) as (-> & _), (table_counts es2 k) as (-> & _).
    apply occurrences_perm, flat_map_perm, H.
  - apply positive_tables_eq; try assumption. intros k.
    destruct (table_counts es1 k) as (_ & -> & _), (table_counts es2 k) as (_ & -> & _).
    apply occurrences_perm, flat_map_perm, H.
  - apply positive_tables_eq; try assumption. intros k.
    destruct (table_counts es1 k) as (_ & _ & -> & _), (table_counts es2 k) as (_ & _ & -> & _).
    apply occurrences_perm, flat_map_perm, H.
  - apply positive_tables_eq; try assumption. intros k.
    destruct (table_counts es1 k) as (_ & _ & _ & -> & _),
             (table_counts es2 k) as (_ & _ & _ & -> & _).
    apply occurrences_perm, flat_map_perm, H.
  - apply positive_tables_eq; try assumption. intros k.
    destruct (table_counts es1 k) as (_ & _ & _ & _ & ->),
             (table_counts es2 k) as (_ & _ & _ & _ & ->).
    apply occurrences_perm, flat_map_perm, H.
Qed.

(** X16: the statistics do not depend on the order of the entries:
    any rearrangement of the entries gives the same entry count and the
    same five tables. *)
Theorem X16_statistics_ignore_order (es1 es2 : list Entry) :
  Permutation es1 es2 -> calculate_statistics es1 = calculate_statistics es2.
Proof. apply calculate_statistics_perm. Qed.

Lemma X16_witness :
  calculate_statistics
    [mkEntry "article" "a" {["year" := "1999"]} []; mkEntry "book" "b" ∅ []]
  = calculate_statistics
      [mkEntry "book" "b" ∅ []; mkEntry "article" "a" {["year" := "1999"]} []].
Proof. apply X16_statistics_ignore_order. apply perm_swap. Defined.

Lemma at_most_one_label {A} (f : A -> list str) es :
  (forall e, length (f e) <= 1) -> length (flat_map f es) <= length es.
Proof.
  intros H. induction es as [|e es IH]; simpl; [lia|].
  rewrite length_app. specialize (H e). lia.
Qed.

(** X17: the counts of the author table add up to the number of names
    extracted from all the entries; the counts of the journal, the
    conference and the year table each add up to at most the number of
    entries, since an entry adds at most one label to each. *)
Theorem X17_table_totals (es : list Entry) :
  let s := calculate_statistics es in
  table_sum (authors s) = length (flat_map author_labels es)
  /\ table_sum (journals s) <= total_entries s
  /\ table_sum (conferences s) <= total_entries s
  /\ table_sum (years s) <= total_entries s.
Proof.
  intros s. destruct (calculate_statistics_tables es) as (T & _ & H2 & H3 & H4 & H5).
  fold s in T, H2, H3, H4, H5.
  rewrite T, H2, H3, H4, H5, !table_sum_incr_all, table_sum_empty.
  split; [lia|].
  repeat split; rewrite Nat.add_0_r; apply at_most_one_label; intros e.
  - unfold journal_labels. destruct (truthy _); simpl; lia.
  - unfold conference_labels. destruct (truthy _); simpl; lia.
  - unfold year_labels. destruct (year_label _); simpl; lia.
Qed.

(** ** The labels of the tables *)

Lemma incr_all_label l :
  forall c k n, incr_all l c !! k = Some n -> In k l \/ c !! k <> None.
Proof.
  induction l as [|x l IH]; intros c k n H; [right; simpl in H; congruence|].
  change (incr_all (x :: l) c) with (incr_all l (incr x c)) in H.
  apply IH in H as [H|H]; [left; right; exact H|].
  unfold incr in H. destruct (decide (x = k)) as [->|Hne].
  - left. left. reflexivity.
  - rewrite lookup_insert_ne in H by exact Hne. right. exact H.
Qed.

Lemma table_label (f : Entry -> list str) es k n :
  incr_all (flat_map f es) ∅ !! k = Some n -> exists e, In e es /\ In k (f e).
Proof.
  intros H. apply incr_all_label in H as [H|H].
  - apply in_flat_map in H. exact H.
  - rewrite lookup_empty in H. congruence.
Qed.

(** X18: the labels of the tables are clean.  Every author label is
    non-empty, without braces and without whitespace other than plain
    spaces; every journal and conference label is non-empty, trimmed and
    without braces; every year label is four decimal digits. *)
Theorem X18_table_labels_are_clean (es : list Entry) (label : str) (n : nat) :
  let s := calculate_statistics es in
  (authors s !! label = Some n -> author_ok label)
  /\ (journals s !! label = Some n -> label <> [] /\ venue_ok label)
  /\ (conferences s !! label = Some n -> label <> [] /\ venue_ok label)
  /\ (years s !! label = Some n ->
      length label = 4 /\ forallb is_digit label = true).
Proof.
  intros s. destruct (calculate_statistics_tables es) as (_ & _ & H2 & H3 & H4 & H5).
  fold s in H2, H3, H4, H5. rewrite H2, H3, H4, H5.
  split; [|split; [|split]]; intros H; apply table_label in H as (e & _ & Hin).
  - pose proof (extract_authors_ok (get (fields e) "author")) as Hok.
    rewrite List.Forall_forall in Hok. apply Hok, Hin.
  - unfold journal_labels in Hin.
    destruct (fst (extract_venue_info e)) as [|c v] eqn:E; [destruct Hin|].
    destruct Hin as [<-|[]]. split; [discriminate|].
    rewrite <- E. apply extract_venue_info_ok.
  - unfold conference_labels in Hin.
    destruct (snd (extract_venue_info e)) as [|c v] eqn:E; [destruct Hin|].
    destruct Hin as [<-|[]]. split; [discriminate|].
    rewrite <- E. apply extract_venue_info_ok.
  - unfold year_labels in Hin.
    destruct (year_label (get (fields e) "year")) as [y|] eqn:E; [|destruct Hin].
    destruct Hin as [<-|[]].
    destruct (year_label_shape _ _ E) as (H1 & H2' & _). auto.
Qed.

Lemma X18_witness : author_ok "D Knuth".
Proof.
  apply (proj1 (X18_table_labels_are_clean
                  [mkEntry "book" "k" {["author" := "{D" ++ [nl] ++ "Knuth}"]} []]
                  "D Knuth" 1)).
  vm_compute. reflexivity.
Defined.

(** ** [analyze_files] *)

Lemma parse_all_entries files : parse_all files = Ok (flat_map entries_of files).
Proof.
  induction files as [|f files IH]; [reflexivity|].
  simpl. unfold entries_of at 1.
  destruct (parse_bibtex_file_total f) as [es ->]. rewrite IH. reflexivity.
Qed.

Lemma analyze_files_eq files :
  analyze_files files = Ok (calculate_statistics (flat_map entries_of files)).
Proof. unfold analyze_files. rewrite parse_all_entries. reflexivity. Qed.

(** X19: the statistics do not depend on the order in which the files
    are given. *)
Theorem X19_file_order_is_irrelevant (files1 files2 : list (list str)) :
  Permutation files1 files2 -> analyze_files files1 = analyze_files files2.
Proof.
  intros H. rewrite !analyze_files_eq. f_equal.
  apply calculate_statistics_perm, flat_map_perm, H.
Qed.

Lemma X19_witness :
  analyze_files [["@book{b,"; "year = 1984 }"]; ["@misc{m}"]]
  = analyze_files [["@misc{m}"]; ["@book{b,"; "year = 1984 }"]].
Proof. apply X19_file_order_is_irrelevant. apply perm_swap. Defined.

(** X20: cutting a file in two at a place outside any open entry does
    not change the statistics. *)
Theorem X20_split_file_outside_entry (f1 f2 : list str) (others : list (list str)) :
  ends_inside_entry f1 = false ->
  analyze_files ((f1 ++ f2) :: others) = analyze_files (f1 :: f2 :: others).
Proof.
  intros H. rewrite !analyze_files_eq. cbn [flat_map]. rewrite app_assoc.
  do 3 f_equal. unfold entries_of.
  destruct (parse_concat_outside f1 f2 H) as (es1 & es2 & -> & -> & ->).
  reflexivity.
Qed.

Lemma X20_witness :
  analyze_files [["@book{b,"; "year = 1984 }"] ++ ["@misc{m}"]]
  = analyze_files [["@book{b,"; "year = 1984 }"]; ["@misc{m}"]].
Proof. apply X20_split_file_outside_entry. reflexivity. Defined.

(** ** The start line of a multi-line entry *)

Lemma split_char_first x first rest :
  contains x first = false ->
  split_char x (first ++ x :: rest) = first :: split_char x rest.
Proof.
  induction first as [|c first IH]; intros H.
  - simpl. rewrite ch_eqb_refl.
    destruct (split_char x rest) eqn:E; [|reflexivity].
    exfalso. exact (split_char_nonempty x rest E).
  - simpl in H. apply orb_false_iff in H as [Hc H].
    simpl. rewrite (IH H). rewrite ch_eqb_sym, Hc. reflexivity.
Qed.

(** X21: in a text of several lines, [parse_entry_fields] drops the whole
    first line, not only the part up to the key: whatever stands on the
    start line of a multi-line entry, fields included, is not parsed. *)
Theorem X21_first_line_is_dropped (first first' rest : str) :
  contains nl first = false -> contains nl first' = false ->
  entry_body (first ++ [nl] ++ rest) = rest
  /\ parse_entry_fields (first ++ [nl] ++ rest)
     = parse_entry_fields (first' ++ [nl] ++ rest).
Proof.
  assert (H : forall f, contains nl f = false -> entry_body (f ++ [nl] ++ rest) = rest).
  { intros f Hf. unfold entry_body.
    change (f ++ [nl] ++ rest) with (f ++ nl :: rest).
    rewrite (split_char_first _ _ _ Hf).
    destruct (split_char nl rest) as [|w ws] eqn:E.
    - exfalso. exact (split_char_nonempty nl rest E).
    - change (1 <? length (f :: w :: ws)) with true. cbn [tl].
      rewrite <- E. apply join_split_char. }
  intros H1 H2. split; [apply H, H1|].
  unfold parse_entry_fields. rewrite (H _ H1), (H _ H2). reflexivity.
Qed.

Lemma X21_witness :
  parse_entry_fields ("@article{k1, author = {A}," ++ [nl] ++ "year = 2020 }")
  = parse_entry_fields ("@article{k1," ++ [nl] ++ "year = 2020 }").
Proof.
  apply (proj2 (X21_first_line_is_dropped "@article{k1, author = {A}," "@article{k1,"
                  "year = 2020 }" eq_refl eq_refl)).
Defined.

(** ** The ordered tables against the unordered ones *)

Section OrderedTables.

Lemma table_of_incr k c : Report.table_of (Report.incr k c) = incr k (Report.table_of c).
Proof.
  unfold Report.table_of, incr. induction c as [|[k' n] c IH]; simpl.
  - rewrite lookup_empty. reflexivity.
  - destruct (bool_decide (k' = k)) eqn:E.
    + apply bool_decide_eq_true in E. subst k'. simpl.
      rewrite lookup_insert_eq, insert_insert_eq. reflexivity.
    + apply bool_decide_eq_false in E. simpl.
      rewrite IH, lookup_insert_ne by exact E. apply insert_insert_ne. exact E.
Qed.

Lemma labels_incr k c :
  map fst (Report.incr k c)
  = if bool_decide (k ∈ map fst c) then map fst c else map fst c ++ [k].
Proof.
  induction c as [|[k' n] c IH]; cbn [map fst Report.incr].
  - rewrite bool_decide_eq_false_2 by apply not_elem_of_nil. reflexivity.
  - destruct (bool_decide (k' = k)) eqn:E.
    + apply bool_decide_eq_true in E. subst k'. cbn [map fst].
      rewrite bool_decide_eq_true_2 by apply list_elem_of_here. reflexivity.
    + apply bool_decide_eq_false in E. cbn [map fst]. rewrite IH.
      destruct (bool_decide (k ∈ map fst c)) eqn:E2.
      * apply bool_decide_eq_true in E2.
        rewrite bool_decide_eq_true_2 by (apply list_elem_of_further, E2). reflexivity.
      * apply bool_decide_eq_false in E2.
        rewrite bool_decide_eq_false_2; [reflexivity|].
        intros H. apply elem_of_cons in H as [H|H]; [apply E; congruence | exact (E2 H)].
Qed.

Lemma NoDup_incr k c : NoDup (map fst c) -> NoDup (map fst (Report.incr k c)).
Proof.
  intros H. rewrite labels_incr.
  destruct (bool_decide (k ∈ map fst c)) eqn:E; [exact H|].
  apply bool_decide_eq_false in E. apply NoDup_app. split; [exact H|].
  split; [|apply NoDup_singleton].
  intros x Hx Hk. apply list_elem_of_singleton in Hk. subst x. exact (E Hx).
Qed.

Lemma table_of_incr_all l :
  forall c,
    Report.table_of (fold_left (fun c k => Report.incr k c) l c) = incr_all l (Report.table_of c)
    /\ (NoDup (map fst c) ->
        NoDup (map fst (fold_left (fun c k => Report.incr k c) l c))).
Proof.
  induction l as [|k l IH]; intros c; [split; auto|].
  simpl. destruct (IH (Report.incr k c)) as [H1 H2]. split.
  - rewrite H1, table_of_incr. reflexivity.
  - intros H. apply H2, NoDup_incr, H.
Qed.

Lemma count_entry_forget s e :
  forget_order (Report.count_entry s e) = count_entry (forget_order s) e
  /\ (labels_once s -> labels_once (Report.count_entry s e)).
Proof.
  unfold Report.count_entry, count_entry, forget_order, labels_once.
  destruct (extract_venue_info e) as [journal conference].
  cbn [Report.total_entries Report.entry_types Report.authors Report.journals
       Report.conferences Report.years total_entries entry_types authors journals
       conferences years].
  destruct (table_of_incr_all (extract_authors (get (fields e) "author"))
              (Report.authors s)) as [Ha Na].
  split.
  - f_equal.
    + apply table_of_incr.
    + destruct (truthy (get (fields e) "author")); [exact Ha | reflexivity].
    + destruct (truthy journal); [apply table_of_incr | reflexivity].
    + destruct (truthy conference); [apply table_of_incr | reflexivity].
    + destruct (year_label _); [apply table_of_incr | reflexivity].
  - intros (N1 & N2 & N3 & N4 & N5). repeat split.
    + apply NoDup_incr, N1.
    + destruct (truthy (get (fields e) "author")); [apply Na, N2 | exact N2].
    + destruct (truthy journal); [apply NoDup_incr, N3 | exact N3].
    + destruct (truthy conference); [apply NoDup_incr, N4 | exact N4].
    + destruct (year_label _); [apply NoDup_incr, N5 | exact N5].
Qed.

Lemma fold_count_entry_forget es :
  forall s,
    forget_order (fold_left Report.count_entry es s)
    = fold_left count_entry es (forget_order s)
    /\ (labels_once s -> labels_once (fold_left Report.count_entry es s)).
Proof.
  induction es as [|e es IH]; intros s; [split; auto|].
  simpl. destruct (IH (Report.count_entry s e)) as [H1 H2].
  destruct (count_entry_forget s e) as [E1 E2]. split.
  - rewrite H1, E1. reflexivity.
  - intros H. apply H2, E2, H.
Qed.

End OrderedTables.

(** The tables in insertion order, as [format_markdown] reads them, are
    the tables of [calculate_statistics] once their order is forgotten,
    and each label stands in a table exactly once. *)
Lemma calculate_statistics_forget_order (es : list Entry) :
  forget_order (Report.calculate_statistics es) = calculate_statistics es
  /\ labels_once (Report.calculate_statistics es).
Proof.
  unfold Report.calculate_statistics, calculate_statistics.
  destruct (fold_count_entry_forget es
              (Report.mkStats (length es) [] [] [] [] [])) as [H1 H2].
  split; [exact H1|]. apply H2. repeat split; constructor.
Qed.

(** ** Ranking *)

Section Ranking.

Lemma insert_desc_perm x l : Permutation (Report.insert_desc x l) (x :: l).
Proof.
  induction l as [|y l IH]; simpl; [reflexivity|].
  destruct (snd x <? snd y); [|reflexivity].
  rewrite IH. apply perm_swap.
Qed.

Lemma sorted_desc_perm c : Permutation (Report.sorted_desc c) c.
Proof.
  induction c as [|x c IH]; simpl; [reflexivity|].
  rewrite insert_desc_perm, IH. reflexivity.
Qed.

Lemma insert_desc_descending x l :
  descending l -> descending (Report.insert_desc x l).
Proof.
  unfold descending. induction l as [|y l IH]; intros H; simpl.
  - repeat constructor.
  - inversion H as [|? ? Hl Hy]; subst.
    destruct (snd x <? snd y) eqn:E.
    + apply Nat.ltb_lt in E. constructor; [apply IH, Hl|].
      rewrite List.Forall_forall in *. intros z Hz.
      apply (Permutation_in _ (insert_desc_perm x l)) in Hz.
      destruct Hz as [<-|Hz]; [lia | apply Hy, Hz].
    + apply Nat.ltb_ge in E. constructor; [exact H|].
      constructor; [exact E|].
      rewrite List.Forall_forall in *. intros z Hz. specialize (Hy z Hz). lia.
Qed.

Lemma sorted_desc_descending c : descending (Report.sorted_desc c).
Proof.
  induction c as [|x c IH]; simpl; [constructor|].
  apply insert_desc_descending, IH.
Qed.

Lemma insert_desc_with_count n x l :
  with_count n (Report.insert_desc x l) = with_count n (x :: l).
Proof.
  unfold with_count. induction l as [|y l IH]; [reflexivity|].
  simpl. destruct (snd x <? snd y) eqn:E; [|reflexivity].
  apply Nat.ltb_lt in E. simpl. rewrite IH. simpl.
  destruct (Nat.eqb (snd y) n) eqn:Ey, (Nat.eqb (snd x) n) eqn:Ex; try reflexivity.
  apply Nat.eqb_eq in Ey, Ex. lia.
Qed.

Lemma sorted_desc_with_count n c :
  with_count n (Report.sorted_desc c) = with_count n c.
Proof.
  induction c as [|x c IH]; [reflexivity|].
  simpl. rewrite insert_desc_with_count. unfold with_count in *. simpl.
  rewrite IH. reflexivity.
Qed.

Lemma descending_app l1 l2 :
  descending (l1 ++ l2) ->
  descending l1 /\ forall x y, In x l1 -> In y l2 -> snd y <= snd x.
Proof.
  unfold descending. induction l1 as [|a l1 IH]; intros H.
  - split; [constructor | intros x y []].
  - simpl in H. inversion H as [|? ? Hl Ha]; subst.
    destruct (IH Hl) as [H1 H2]. split.
    + constructor; [exact H1|]. rewrite List.Forall_forall in *.
      intros z Hz. apply Ha, in_or_app. left. exact Hz.
    + intros x y [<-|Hx] Hy; [|exact (H2 x y Hx Hy)].
      rewrite List.Forall_forall in Ha. apply Ha, in_or_app. right. exact Hy.
Qed.

Lemma enumerate1_parts {A} (l : list A) :
  map fst (Report.enumerate1 l) = seq 1 (length l)
  /\ map snd (Report.enumerate1 l) = l.
Proof.
  unfold Report.enumerate1. generalize 1. induction l as [|x l IH]; intros n.
  - split; reflexivity.
  - simpl. destruct (IH (S n)) as [H1 H2]. rewrite H1, H2. split; reflexivity.
Qed.

End Ranking.

(** X23: the rows of a "Top 10" table.  The ranks are 1, 2, ... without a
    gap and there are at most ten rows, as many as the table has labels if
    it has fewer; the counts never increase from one row to the next; no
    label left out has a higher count than a label listed; labels with
    the same count are listed in the order in which they were first
    counted. *)
Theorem X23_top_ten_rows (c : Report.counter) :
  let rows := Report.enumerate1 (Report.most_common 10 c) in
  map fst rows = seq 1 (Nat.min 10 (length c))
  /\ descending (map snd rows)
  /\ exists left_out,
       Permutation (map snd rows ++ left_out) c
       /\ Forall (fun y => Forall (fun x => snd y <= snd x) (map snd rows)) left_out
       /\ forall n, with_count n c
                    = with_count n (map snd rows) ++ with_count n left_out.
Proof.
  intros rows. subst rows.
  destruct (enumerate1_parts (Report.most_common 10 c)) as [H1 H2].
  rewrite H1, H2. unfold Report.most_common.
  pose proof (sorted_desc_descending c) as Hd.
  rewrite <- (take_drop 10 (Report.sorted_desc c)) in Hd.
  apply descending_app in Hd as [Hd1 Hd2].
  split.
  - rewrite length_take. f_equal. f_equal.
    apply Permutation_length, sorted_desc_perm.
  - split; [exact Hd1|].
    exists (drop 10 (Report.sorted_desc c)). split; [|split].
    + rewrite take_drop. apply sorted_desc_perm.
    + apply List.Forall_forall. intros y Hy.
      apply List.Forall_forall. intros x Hx. exact (Hd2 x y Hx Hy).
    + intros n. rewrite <- (sorted_desc_with_count n c).
      rewrite <- (take_drop 10 (Report.sorted_desc c)) at 1.
      unfold with_count. apply List.filter_app.
Qed.

(** X24: the "Publication Types" list shows every type of the table
    exactly once, with its count, from the highest count to the lowest,
    types with the same count in the order in which they were first
    counted. *)
Theorem X24_types_listing (c : Report.counter) :
  Permutation (Report.sorted_desc c) c
  /\ descending (Report.sorted_desc c)
  /\ forall n, with_count n (Report.sorted_desc c) = with_count n c.
Proof.
  split; [apply sorted_desc_perm|].
  split; [apply sorted_desc_descending | intros n; apply sorted_desc_with_count].
Qed.

(** ** Escaping *)

Lemma escape_pipes_cons c s :
  Report.escape_pipes (c :: s)
  = (if ch_eqb c "|" then [Report.backslash; "|"%char] else [c])
    ++ Report.escape_pipes s.
Proof. reflexivity. Qed.

Lemma escape_pipes_head s :
  match Report.escape_pipes s with
  | d :: _ => ch_eqb d "|" = false
  | [] => True
  end.
Proof.
  destruct s as [|c s]; [exact I|]. rewrite escape_pipes_cons.
  destruct (ch_eqb c "|") eqn:E; [reflexivity | exact E].
Qed.

(** X25: escaping the pipes of a label loses nothing and leaves no pipe
    bare: every pipe of the escaped label has a backslash before it, and
    dropping those backslashes gives the label back. *)
Theorem X25_escape_pipes (label : str) :
  unescape_pipes (Report.escape_pipes label) = label
  /\ forall prev, has_bare_pipe prev (Report.escape_pipes label) = false.
Proof.
  split.
  - induction label as [|c s IH]; [reflexivity|].
    rewrite escape_pipes_cons. destruct (ch_eqb c "|") eqn:E.
    + apply ch_eqb_eq in E. subst c. simpl. rewrite IH. reflexivity.
    + pose proof (escape_pipes_head s) as Hh. cbn [app].
      destruct (Report.escape_pipes s) as [|d t] eqn:Es.
      * simpl. destruct s as [|c' s']; [reflexivity|].
        rewrite escape_pipes_cons in Es. destruct (ch_eqb c' "|"); discriminate.
      * cbn [unescape_pipes]. rewrite Hh, andb_false_r.
        cbn [unescape_pipes] in IH. rewrite IH. reflexivity.
  - induction label as [|c s IH]; intros prev; [reflexivity|].
    rewrite escape_pipes_cons. destruct (ch_eqb c "|") eqn:E.
    + simpl. rewrite IH. reflexivity.
    + simpl. rewrite E, IH. reflexivity.
Qed.

(** ** Size of the report *)

Lemma length_types_section c :
  length (Report.types_section c)
  = match c with [] => 0 | _ :: _ => length c + 2 end.
Proof.
  destruct c as [|x c]; [reflexivity|]. unfold Report.types_section.
  rewrite !length_app, length_map, (Permutation_length (sorted_desc_perm (x :: c))).
  simpl. lia.
Qed.

Lemma length_top10_section title head rule escape c :
  length (Report.top10_section title head rule escape c)
  = match c with [] => 0 | _ :: _ => Nat.min 10 (length c) + 4 end.
Proof.
  destruct c as [|x c]; [reflexivity|]. unfold Report.top10_section.
  rewrite !length_app, length_map.
  destruct (enumerate1_parts (Report.most_common 10 (x :: c))) as [_ H].
  rewrite <- (length_map snd), H. unfold Report.most_common.
  rewrite length_take, (Permutation_length (sorted_desc_perm (x :: c))).
  simpl. lia.
Qed.

Lemma length_format_lines (s : Report.stats) (filenames : list str) :
  length (Report.format_lines s filenames)
  = 7 + length filenames
    + match Report.entry_types s with [] => 0 | c => length c + 2 end
    + match Report.authors s with [] => 0 | c => Nat.min 10 (length c) + 4 end
    + match Report.journals s with [] => 0 | c => Nat.min 10 (length c) + 4 end
    + match Report.conferences s with [] => 0 | c => Nat.min 10 (length c) + 4 end
    + match Report.years s with [] => 0 | c => Nat.min 10 (length c) + 4 end.
Proof.
  unfold Report.format_lines.
  rewrite !length_app, length_map, length_types_section, !length_top10_section.
  destruct (Report.entry_types s), (Report.authors s), (Report.journals s),
    (Report.conferences s), (Report.years s); simpl; lia.
Qed.

(** *** The items that [format_markdown] joins, and the lines of its text *)

Section ReportLines.

Lemma contains_app x a b : contains x (a ++ b) = contains x a || contains x b.
Proof. unfold contains. apply existsb_app. Qed.

Lemma split_char_none x s : contains x s = false -> split_char x s = [s].
Proof.
  induction s as [|c s IH]; intros H; [reflexivity|].
  simpl in H. apply orb_false_iff in H as [Hc H].
  simpl. rewrite (IH H), ch_eqb_sym, Hc. reflexivity.
Qed.

(** Splitting undoes joining when no item contains the separator. *)
Lemma split_join_char x l :
  l <> [] -> Forall (fun w => contains x w = false) l ->
  split_char x (join_char x l) = l.
Proof.
  induction l as [|w ws IH]; intros Hne H; [congruence|].
  inversion H as [|? ? Hw Hws]; subst.
  destruct ws as [|w' ws]; [apply split_char_none, Hw|].
  change (join_char x (w :: w' :: ws)) with (w ++ x :: join_char x (w' :: ws)).
  rewrite (split_char_first _ _ _ Hw), IH; [reflexivity | discriminate | exact Hws].
Qed.

Lemma digits_of_uint d c :
  In c (list_ascii_of_string (NilEmpty.string_of_uint d)) -> is_digit c = true.
Proof.
  induction d as [|d IH|d IH|d IH|d IH|d IH|d IH|d IH|d IH|d IH|d IH];
    simpl; intros H; [contradiction|..];
    (destruct H as [<-|H]; [reflexivity | exact (IH H)]).
Qed.

Lemma str_of_nat_digits n c : In c (Report.str_of_nat n) -> is_digit c = true.
Proof.
  unfold Report.str_of_nat, NilZero.string_of_uint.
  destruct (Nat.to_uint n) eqn:E; try apply digits_of_uint.
  simpl. intros [<-|[]]. reflexivity.
Qed.

Lemma str_of_nat_one_line n : contains nl (Report.str_of_nat n) = false.
Proof.
  apply contains_false_iff. intros H. apply str_of_nat_digits in H. discriminate.
Qed.

Lemma In_until_char x c s : In c (Report.until_char x s) -> In c s.
Proof.
  induction s as [|d s IH]; simpl; [auto|].
  destruct (ch_eqb d x); simpl; [contradiction|]. intros [H|H]; auto.
Qed.

Lemma basename_one_line f :
  contains nl f = false -> contains nl (Report.basename f) = false.
Proof.
  rewrite !contains_false_iff. intros H Hin. apply H. unfold Report.basename in Hin.
  apply in_rev, In_until_char, in_rev in Hin. exact Hin.
Qed.

Lemma escape_pipes_one_line label :
  contains nl label = false -> contains nl (Report.escape_pipes label) = false.
Proof.
  induction label as [|c s IH]; intros H; [reflexivity|].
  simpl in H. apply orb_false_iff in H as [Hc H].
  rewrite escape_pipes_cons, contains_app, (IH H).
  destruct (ch_eqb c "|"); [reflexivity|]. simpl. rewrite Hc. reflexivity.
Qed.

Lemma file_line_one_line f :
  contains nl f = false -> contains nl (Report.file_line f) = false.
Proof.
  intros H. unfold Report.file_line.
  rewrite !contains_app, (basename_one_line _ H). reflexivity.
Qed.

Lemma type_line_one_line item :
  contains nl (fst item) = false -> contains nl (Report.type_line item) = false.
Proof.
  intros H. unfold Report.type_line.
  rewrite !contains_app, H, str_of_nat_one_line. reflexivity.
Qed.

Lemma table_row_one_line escape i item :
  contains nl (fst item) = false ->
  contains nl (Report.table_row escape (i, item)) = false.
Proof.
  destruct item as [label n]. cbn [fst]. intros H. unfold Report.table_row.
  rewrite !contains_app, !str_of_nat_one_line.
  destruct escape; [rewrite (escape_pipes_one_line _ H) | rewrite H]; reflexivity.
Qed.

Lemma sorted_desc_one_line c : one_line_labels c -> one_line_labels (Report.sorted_desc c).
Proof.
  unfold one_line_labels. rewrite !List.Forall_forall. intros H x Hx.
  apply H, (Permutation_in _ (sorted_desc_perm c)), Hx.
Qed.

Lemma most_common_one_line n c :
  one_line_labels c -> one_line_labels (Report.most_common n c).
Proof.
  intros H. apply sorted_desc_one_line in H. unfold one_line_labels in *.
  rewrite List.Forall_forall in *. intros x Hx. apply H.
  unfold Report.most_common in Hx.
  rewrite <- (take_drop n (Report.sorted_desc c)). apply in_or_app. left. exact Hx.
Qed.

Lemma types_section_one_line c :
  one_line_labels c ->
  Forall (fun w => contains nl w = false) (Report.types_section c).
Proof.
  intros H. destruct c as [|x c]; [constructor|]. unfold Report.types_section.
  apply Forall_app. split; [repeat constructor|].
  apply Forall_app. split; [|repeat constructor].
  apply sorted_desc_one_line in H. unfold one_line_labels in H.
  rewrite List.Forall_forall in *. intros w Hw.
  apply in_map_iff in Hw as (item & <- & Hitem).
  apply type_line_one_line, H, Hitem.
Qed.

Lemma top10_section_one_line title head rule escape c :
  contains nl title = false -> contains nl head = false ->
  contains nl rule = false -> one_line_labels c ->
  Forall (fun w => contains nl w = false)
    (Report.top10_section title head rule escape c).
Proof.
  intros Ht Hh Hr H. destruct c as [|x c]; [constructor|].
  unfold Report.top10_section.
  apply Forall_app. split; [repeat constructor; assumption|].
  apply Forall_app. split; [|repeat constructor].
  apply (most_common_one_line 10) in H. unfold one_line_labels in H.
  rewrite List.Forall_forall in *. intros w Hw.
  apply in_map_iff in Hw as ([i item] & <- & Hrow).
  apply table_row_one_line, H. unfold Report.enumerate1 in Hrow.
  exact (in_combine_r _ _ _ _ Hrow).
Qed.

Lemma format_lines_one_line s filenames :
  Forall (fun f => contains nl f = false) filenames -> one_line_stats s ->
  Forall (fun w => contains nl w = false) (Report.format_lines s filenames).
Proof.
  intros Hf (H1 & H2 & H3 & H4 & H5). unfold Report.format_lines.
  apply Forall_app. split; [repeat constructor|].
  apply Forall_app. split.
  { rewrite List.Forall_forall in *. intros w Hw.
    apply in_map_iff in Hw as (f & <- & Hin). apply file_line_one_line, Hf, Hin. }
  apply Forall_app. split.
  { repeat constructor. rewrite contains_app, str_of_nat_one_line. reflexivity. }
  apply Forall_app. split; [apply types_section_one_line, H1|].
  repeat (apply Forall_app; split;
          [apply top10_section_one_line; [reflexivity..|assumption]|]).
  apply top10_section_one_line; [reflexivity..|assumption].
Qed.

End ReportLines.

(** X26: when no file name and no label contains a line break, the lines
    of the report text are the items that [format_markdown] has joined,
    one line each: seven fixed lines and one line per file; nothing for an
    empty table; for the types, one line per type and two more; for each
    "Top 10" table, four lines and one row per label, ten rows at most. *)
Theorem X26_report_lines (s : Report.stats) (filenames : list str) :
  let types_size (c : Report.counter) :=
    match c with [] => 0 | _ :: _ => length c + 2 end in
  let top10_size (c : Report.counter) :=
    match c with [] => 0 | _ :: _ => Nat.min 10 (length c) + 4 end in
  Forall (fun f => contains nl f = false) filenames ->
  one_line_stats s ->
  text_lines (Report.format_markdown s filenames) = Report.format_lines s filenames
  /\ length (text_lines (Report.format_markdown s filenames))
     = 7 + length filenames + types_size (Report.entry_types s)
       + top10_size (Report.authors s) + top10_size (Report.journals s)
       + top10_size (Report.conferences s) + top10_size (Report.years s).
Proof.
  intros types_size top10_size Hf Hs.
  assert (H : text_lines (Report.format_markdown s filenames)
              = Report.format_lines s filenames).
  { unfold text_lines, Report.format_markdown. apply split_join_char.
    - unfold Report.format_lines. discriminate.
    - apply format_lines_one_line; assumption. }
  split; [exact H|]. rewrite H, length_format_lines.
  subst types_size top10_size. cbv beta.
  destruct (Report.entry_types s), (Report.authors s), (Report.journals s),
    (Report.conferences s), (Report.years s); reflexivity.
Qed.

Lemma X26_witness :
  length (text_lines
            (Report.format_markdown
               (Report.calculate_statistics
                  [mkEntry "article" "k1" {["year" := "2020"]} []])
               ["refs/a.bib"]))
  = 16.
Proof.
  assert (Hf : Forall (fun f => contains nl f = false) ["refs/a.bib"])
    by repeat constructor.
  assert (Hs : one_line_stats
                 (Report.calculate_statistics
                    [mkEntry "article" "k1" {["year" := "2020"]} []]))
    by (vm_compute; repeat constructor).
  destruct (X26_report_lines _ _ Hf Hs) as [_ H].
  rewrite H. reflexivity.
Defined.

(** A label with a line break in it takes two lines of the text: the
    journal name that an entry spreads over two lines keeps the break. *)
Example label_with_line_break :
  let es := entries_of ["@article{k,"; "journal = {Foo"; "Bar},"; "}"] in
  let s := Report.calculate_statistics es in
  Report.journals s = [("Foo" ++ [nl] ++ "Bar", 1)]
  /\ length (Report.format_lines s ["a.bib"]) = 16
  /\ length (text_lines (Report.format_markdown s ["a.bib"])) = 17.
Proof. vm_compute. repeat split. Qed.

(** ** The raw text kept with an entry *)

Lemma step_raw_or_fields all st l st' :
  In l all -> raw_or_fields_state all st -> step st l = Ok st' ->
  raw_or_fields_state all st'.
Proof.
  intros Hl [Hes Hcur]. unfold step.
  destruct (skipped (strip l)) eqn:Hsk; [intros [= <-]; split; assumption|].
  destruct (in_entry st) eqn:Hin; simpl.
  - destruct (Hcur eq_refl) as (cur & Hc & Hraw).
    unfold continue_entry. rewrite Hc.
    destruct (closes_entry (strip l)); intros [= <-]; split; simpl.
    + apply Forall_app. split; [exact Hes|].
      constructor; [right; exact Hraw | constructor].
    + discriminate.
    + exact Hes.
    + intros _. eauto.
  - destruct (contains "@" (strip l)) eqn:Hat;
      [|intros [= <-]; split; [exact Hes|congruence]].
    destruct (Re.search entry_start_re (strip l)) as [m|] eqn:E;
      [|intros [= <-]; split; [exact Hes|congruence]].
    intros [= <-]. unfold start_entry.
    destruct (closes_on_start (strip l)) eqn:Hclose; split; simpl.
    + apply Forall_app. split; [exact Hes|].
      constructor; [|constructor]. left. exists l. split; [exact Hl|].
      split; [|split; [exact Hclose|]].
      * unfold is_start_line. rewrite Hsk, Hat, E. reflexivity.
      * exists m. split; [exact E | reflexivity].
    + discriminate.
    + exact Hes.
    + intros _. eexists. split; reflexivity.
Qed.

Lemma run_raw_or_fields all lines :
  forall st st',
    (forall l, In l lines -> In l all) ->
    raw_or_fields_state all st -> run st lines = Ok st' ->
    raw_or_fields_state all st'.
Proof.
  induction lines as [|l lines IH]; intros st st' Hall Hst H; simpl in H.
  - injection H as <-. exact Hst.
  - destruct (step st l) as [st1|] eqn:E; [|discriminate].
    apply (IH st1 st'); [intros x Hx; apply Hall; right; exact Hx| |exact H].
    apply (step_raw_or_fields all st l); [apply Hall; left; reflexivity| |]; assumption.
Qed.

(** X27: the raw text is kept only for entries that close on their start
    line, and those have no fields.  Every parsed entry either is the
    entry made by one line of the file that opens an entry and closes it
    at once (its type and its key are read from that line, trimmed, its
    field mapping is empty and its raw text is that trimmed line and
    nothing else), or has no raw text at all. *)
Theorem X27_raw_text_or_fields (lines : list str) :
  exists es, parse_bibtex_file lines = Ok es /\ Forall (raw_or_fields lines) es.
Proof.
  unfold parse_bibtex_file.
  destruct (run_total lines init_state state_ok_init) as (st & H & _).
  rewrite H. exists (entries st). split; [reflexivity|].
  apply (run_raw_or_fields lines lines init_state st); [auto| |exact H].
  split; [constructor | discriminate].
Qed.
